(** * PusH: the node event loop, its futures and its particle messages

    A shallow embedding of [push/lib/node_event_loop.py] and
    [push/lib/messages.py].  Python objects that the event loop mutates in
    place (its dictionaries, the multiprocessing queues, the particle caches)
    are fields of one explicit state record [NEL]; every method of
    [NodeEventLoop] is a computation in a small state-and-exception monad
    over that record.  User code (the handlers stored in [_hooks], the
    [forward] of a module) is a parameter of the development. *)

From stdpp Require Import functions gmap strings list fin_maps.

Set Default Proof Using "Type".

(** ** Values *)

(** Where a tensor lives: host memory or an accelerator. *)
Inductive Place := CPU | Cuda (d : nat).

(** A tensor: its element values, its placement, and whether it is still
    attached to the autograd graph.  The event loop only moves and copies
    tensors, so the elements are kept abstract as integers. *)
Record Tensor := mkTensor {
  t_data : list Z;
  t_place : Place;
  t_attached : bool
}.

(** A parameter of an [nn.Module]: its tensor and its optional gradient. *)
Record Param := mkParam {
  p_data : Tensor;
  p_grad : option Tensor
}.

(** [module.parameters()] is all the event loop ever looks at. *)
Abbreviation Module := (list Param).

(** Python callables are code references; what they do when called is the
    parameter [call] of the semantics below. *)
Abbreviation Callable := nat.

(** A worker thread handle, named after the future it computes. *)
Abbreviation Thread := nat.

(** The exceptions ([Exception] subclasses) that occur in the event loop, and
    the ones user code raises. *)
Inductive Exn :=
| KeyError
| AttributeError
| TypeError
| UnboundLocalError
| ValueError
| UserError (code : nat).

(** The Python values that travel as arguments and results. [VView d p] is
    [ParticleView(view_caches[d], p)]. *)
Inductive PyVal :=
| VNone
| VBool (b : bool)
| VInt (z : Z)
| VStr (s : string)
| VTensor (t : Tensor)
| VCallable (c : Callable)
| VView (d : nat) (p : nat).

#[global] Instance Place_eq_dec : EqDecision Place.
Proof. solve_decision. Defined.
#[global] Instance Tensor_eq_dec : EqDecision Tensor.
Proof. solve_decision. Defined.
#[global] Instance Param_eq_dec : EqDecision Param.
Proof. solve_decision. Defined.
#[global] Instance Exn_eq_dec : EqDecision Exn.
Proof. solve_decision. Defined.
#[global] Instance PyVal_eq_dec : EqDecision PyVal.
Proof. solve_decision. Defined.

(** Modelled from the spec: [detach_to_cpu] of [push/lib/utils.py], which is
    not among the sources.  Arguments that cross a process boundary are
    copied to a host-resident form: a tensor is detached and moved to the
    CPU, any other value is passed as it is. *)
Definition detach_to_cpu (val : PyVal) : PyVal :=
  match val with
  | VTensor t => VTensor (mkTensor (t_data t) CPU false)
  | _ => val
  end.

(** Modelled from the spec: [detach_to_device] of [push/lib/utils.py], the
    device transfer applied to the arguments of a handler: a tensor is
    detached and moved to [device], any other value is passed as it is. *)
Definition detach_to_device (device : nat) (val : PyVal) : PyVal :=
  match val with
  | VTensor t => VTensor (mkTensor (t_data t) (Cuda device) false)
  | _ => val
  end.

(** A value is host resident when it holds no device memory and no autograd
    history. *)
Definition host_resident (val : PyVal) : Prop :=
  match val with
  | VTensor t => t_place t = CPU ∧ t_attached t = false
  | _ => True
  end.

(** A value is resident on [device] in the same sense. *)
Definition device_resident (device : nat) (val : PyVal) : Prop :=
  match val with
  | VTensor t => t_place t = Cuda device ∧ t_attached t = false
  | _ => True
  end.

(** ** Messages ([push/lib/messages.py]) *)

(** An entry of a handler table: [_dispatch] stores the function itself,
    [register_receive] stores the pair [(fn, state)]. *)
Inductive Hook :=
| HFn (fn : Callable)
| HPair (fn : Callable) (state : PyVal).

Inductive MSG :=
| NodeEvtLoopInitMSG
| NodeEvtLoopCleanupMSG
| NELBroadcastParticlesMSG (in_queues out_queues : gmap nat nat)
                           (particle_to_device : gmap nat nat)
| NELBroadcastParticlesAckMSG
| NELSaveModel (pid_fid : nat * nat)
| NELSaveModelAckPDMSG (pid_fid : nat * nat)
| ReceiveParticleInitPDMSG (device pid : nat) (mk_optim : Callable)
                           (receive : gmap string Callable) (state : PyVal)
| ReceiveParticleInitAckPDMSG
| ReceiveRegisterPDMSG (pid : nat) (msg : string) (fn : Callable) (state : PyVal)
| ReceiveRegisterAckPDMSG
| ReceiveFuncPDMSG (pid_fid : nat * nat) (pid_to : nat) (msg : string)
                   (args : list PyVal)
| ReceiveFuncAckPDMSG (pid_fid : nat * nat) (result : PyVal)
| ReceiveParametersPDMSG (pid_fid : nat * nat) (pid : nat)
| ReceiveParametersAckPDMSG (pid_fid : nat * nat) (params : list Tensor)
| ReceiveFuncMSG (pid_fid : nat * nat) (pid : nat) (msg_name : string)
                 (args : list PyVal)
| ReceiveFuncAckMSG
| ReceiveGetMSG (pid_fid : nat) (pid_caller pid : nat)
| ReceiveGetAckMSG (fid : nat) (pid : nat) (params : list Tensor)
                   (params_grad : list (option Tensor)).

(** What a queue carries: messages, and the exception objects that the
    event loop forwards on [out_queue]. *)
Inductive QItem :=
| QMsg (m : MSG)
| QExn (e : Exn).

(** ** The particle cache *)

(** Modelled from the spec: [ParticleCache] of [push/lib/context_switch.py],
    which is not among the sources.  A cache is a bounded per-device store:
    [modules] holds every resource created in it, [resident] lists the ones
    presently on the device, least recently released first, and [pinned]
    the ones an operation in flight protects from eviction. *)
Record ParticleCache := mkCache {
  cache_size : nat;
  modules : gmap nat Module;
  resident : list nat;
  pinned : gset nat
}.

Module Cache.

(** The oldest resident entry that is not pinned. *)
Fixpoint oldest_unpinned (pins : gset nat) (l : list nat) : option nat :=
  match l with
  | [] => None
  | p :: l' => if decide (p ∈ pins) then oldest_unpinned pins l' else Some p
  end.

Definition remove (p : nat) (l : list nat) : list nat :=
  filter (λ q, q ≠ p) l.

(** Modelled from the spec: [evict-oldest-unpinned() -> id | none]. *)
Definition evict_oldest_unpinned (c : ParticleCache) : option nat * ParticleCache :=
  match oldest_unpinned (pinned c) (resident c) with
  | Some q => (Some q, mkCache (cache_size c) (modules c) (remove q (resident c)) (pinned c))
  | None => (None, c)
  end.

(** Bring [p] onto the device when the capacity allows it, evicting the
    oldest unpinned entry of a full cache. *)
Definition load (p : nat) (c : ParticleCache) : option ParticleCache :=
  if decide (length (resident c) < cache_size c) then
    Some (mkCache (cache_size c) (modules c) (resident c ++ [p]) (pinned c))
  else
    match evict_oldest_unpinned c with
    | (Some _, c') =>
        Some (mkCache (cache_size c') (modules c') (resident c' ++ [p]) (pinned c'))
    | (None, _) => None
    end.

Definition pin_if (pin : bool) (p : nat) (c : ParticleCache) : ParticleCache :=
  if pin then mkCache (cache_size c) (modules c) (resident c) ({[p]} ∪ pinned c) else c.

Definition contains (c : ParticleCache) (p : nat) : bool :=
  bool_decide (is_Some (modules c !! p)).

(** Modelled from the spec: [try_read(id, pin) -> resource | absent], the
    non-blocking read.  It is absent when the resource is not resident
    and no capacity can be freed for it. *)
Definition try_read (c : ParticleCache) (p : nat) (pin : bool)
  : option Module * ParticleCache :=
  match modules c !! p with
  | None => (None, c)
  | Some m =>
      if decide (p ∈ resident c) then (Some m, pin_if pin p c)
      else match load p c with
           | Some c' => (Some m, pin_if pin p c')
           | None => (None, c)
           end
  end.

(** Modelled from the spec: [release(id, handle)] joins the worker,
    unpins the entry and marks it recently used. *)
Definition release (c : ParticleCache) (p : nat) (t : Thread) : ParticleCache :=
  mkCache (cache_size c) (modules c)
          (if decide (p ∈ resident c) then remove p (resident c) ++ [p] else resident c)
          (pinned c ∖ {[p]}).

(** Modelled from the spec: [create(id, ...) -> resource], which fails if
    the id is already present; the new resource is what the module
    factory builds. *)
Definition create (mk_module : Module) (c : ParticleCache) (p : nat)
  : option (Module * ParticleCache) :=
  match modules c !! p with
  | Some _ => None
  | None =>
      let c1 := mkCache (cache_size c) (<[p := mk_module]> (modules c))
                        (resident c) (pinned c) in
      Some (mk_module, default c1 (load p c1))
  end.

(** In-place update of a resource through a reference to it. *)
Definition store (c : ParticleCache) (p : nat) (m : Module) : ParticleCache :=
  mkCache (cache_size c) (<[p := m]> (modules c)) (resident c) (pinned c).

End Cache.

(** ** The state of a node event loop *)

(** The attributes that [NodeEventLoop.__init__] sets.  The queues are
    shared objects: [queues] is the store of their contents, and
    [in_queue], [out_queue] and the entries of [_in_queues] and
    [_out_queues] are references into it.  [_device_to_pthread] is an
    [OrderedDict], kept as an association list in insertion order. *)
Record NEL := mkNEL {
  rank : nat;
  devices : list nat;
  in_queue : nat;
  out_queue : nat;
  queues : gmap nat (list QItem);
  _in_queues : gmap nat nat;
  _out_queues : gmap nat nat;
  _particle_to_rank : gmap nat nat;
  _particle_to_device : gmap nat nat;
  _particle_to_state : gmap nat PyVal;
  _hooks : gmap nat (gmap string Hook);
  _device_to_pthread : list (nat * (nat * Thread));
  particle_caches : gmap nat ParticleCache;
  view_caches : gmap nat ParticleCache;
  _future_id : nat;
  _particle_to_futures : gmap nat (gset nat);
  _future_to_particle : gmap nat nat;
  _results : gmap nat PyVal
}.

(** Assignment to one attribute. *)
Definition set_queues (v : gmap nat (list QItem)) (s : NEL) : NEL :=
  mkNEL (rank s) (devices s) (in_queue s) (out_queue s) v (_in_queues s) (_out_queues s) (_particle_to_rank s) (_particle_to_device s) (_particle_to_state s) (_hooks s) (_device_to_pthread s) (particle_caches s) (view_caches s) (_future_id s) (_particle_to_futures s) (_future_to_particle s) (_results s).
Definition set_in_queues (v : gmap nat nat) (s : NEL) : NEL :=
  mkNEL (rank s) (devices s) (in_queue s) (out_queue s) (queues s) v (_out_queues s) (_particle_to_rank s) (_particle_to_device s) (_particle_to_state s) (_hooks s) (_device_to_pthread s) (particle_caches s) (view_caches s) (_future_id s) (_particle_to_futures s) (_future_to_particle s) (_results s).
Definition set_out_queues (v : gmap nat nat) (s : NEL) : NEL :=
  mkNEL (rank s) (devices s) (in_queue s) (out_queue s) (queues s) (_in_queues s) v (_particle_to_rank s) (_particle_to_device s) (_particle_to_state s) (_hooks s) (_device_to_pthread s) (particle_caches s) (view_caches s) (_future_id s) (_particle_to_futures s) (_future_to_particle s) (_results s).
Definition set_particle_to_rank (v : gmap nat nat) (s : NEL) : NEL :=
  mkNEL (rank s) (devices s) (in_queue s) (out_queue s) (queues s) (_in_queues s) (_out_queues s) v (_particle_to_device s) (_particle_to_state s) (_hooks s) (_device_to_pthread s) (particle_caches s) (view_caches s) (_future_id s) (_particle_to_futures s) (_future_to_particle s) (_results s).
Definition set_particle_to_device (v : gmap nat nat) (s : NEL) : NEL :=
  mkNEL (rank s) (devices s) (in_queue s) (out_queue s) (queues s) (_in_queues s) (_out_queues s) (_particle_to_rank s) v (_particle_to_state s) (_hooks s) (_device_to_pthread s) (particle_caches s) (view_caches s) (_future_id s) (_particle_to_futures s) (_future_to_particle s) (_results s).
Definition set_particle_to_state (v : gmap nat PyVal) (s : NEL) : NEL :=
  mkNEL (rank s) (devices s) (in_queue s) (out_queue s) (queues s) (_in_queues s) (_out_queues s) (_particle_to_rank s) (_particle_to_device s) v (_hooks s) (_device_to_pthread s) (particle_caches s) (view_caches s) (_future_id s) (_particle_to_futures s) (_future_to_particle s) (_results s).
Definition set_hooks (v : gmap nat (gmap string Hook)) (s : NEL) : NEL :=
  mkNEL (rank s) (devices s) (in_queue s) (out_queue s) (queues s) (_in_queues s) (_out_queues s) (_particle_to_rank s) (_particle_to_device s) (_particle_to_state s) v (_device_to_pthread s) (particle_caches s) (view_caches s) (_future_id s) (_particle_to_futures s) (_future_to_particle s) (_results s).
Definition set_device_to_pthread (v : list (nat * (nat * Thread))) (s : NEL) : NEL :=
  mkNEL (rank s) (devices s) (in_queue s) (out_queue s) (queues s) (_in_queues s) (_out_queues s) (_particle_to_rank s) (_particle_to_device s) (_particle_to_state s) (_hooks s) v (particle_caches s) (view_caches s) (_future_id s) (_particle_to_futures s) (_future_to_particle s) (_results s).
Definition set_particle_caches (v : gmap nat ParticleCache) (s : NEL) : NEL :=
  mkNEL (rank s) (devices s) (in_queue s) (out_queue s) (queues s) (_in_queues s) (_out_queues s) (_particle_to_rank s) (_particle_to_device s) (_particle_to_state s) (_hooks s) (_device_to_pthread s) v (view_caches s) (_future_id s) (_particle_to_futures s) (_future_to_particle s) (_results s).
Definition set_view_caches (v : gmap nat ParticleCache) (s : NEL) : NEL :=
  mkNEL (rank s) (devices s) (in_queue s) (out_queue s) (queues s) (_in_queues s) (_out_queues s) (_particle_to_rank s) (_particle_to_device s) (_particle_to_state s) (_hooks s) (_device_to_pthread s) (particle_caches s) v (_future_id s) (_particle_to_futures s) (_future_to_particle s) (_results s).
Definition set_future_id (v : nat) (s : NEL) : NEL :=
  mkNEL (rank s) (devices s) (in_queue s) (out_queue s) (queues s) (_in_queues s) (_out_queues s) (_particle_to_rank s) (_particle_to_device s) (_particle_to_state s) (_hooks s) (_device_to_pthread s) (particle_caches s) (view_caches s) v (_particle_to_futures s) (_future_to_particle s) (_results s).
Definition set_particle_to_futures (v : gmap nat (gset nat)) (s : NEL) : NEL :=
  mkNEL (rank s) (devices s) (in_queue s) (out_queue s) (queues s) (_in_queues s) (_out_queues s) (_particle_to_rank s) (_particle_to_device s) (_particle_to_state s) (_hooks s) (_device_to_pthread s) (particle_caches s) (view_caches s) (_future_id s) v (_future_to_particle s) (_results s).
Definition set_future_to_particle (v : gmap nat nat) (s : NEL) : NEL :=
  mkNEL (rank s) (devices s) (in_queue s) (out_queue s) (queues s) (_in_queues s) (_out_queues s) (_particle_to_rank s) (_particle_to_device s) (_particle_to_state s) (_hooks s) (_device_to_pthread s) (particle_caches s) (view_caches s) (_future_id s) (_particle_to_futures s) v (_results s).
Definition set_results (v : gmap nat PyVal) (s : NEL) : NEL :=
  mkNEL (rank s) (devices s) (in_queue s) (out_queue s) (queues s) (_in_queues s) (_out_queues s) (_particle_to_rank s) (_particle_to_device s) (_particle_to_state s) (_hooks s) (_device_to_pthread s) (particle_caches s) (view_caches s) (_future_id s) (_particle_to_futures s) (_future_to_particle s) v.

(** ** Computations of the event loop *)

(** How a call on the event loop ends: it returns, it raises, it blocks for
    ever on [in_queue.get()] because nothing is left to arrive, or the
    bound given to one of its loops is used up. *)
Inductive Outcome (A : Type) :=
| Ret (a : A) (s : NEL)
| Raise (e : Exn) (s : NEL)
| Blocked (s : NEL)
| OutOfFuel.
Arguments Ret {A} a s.
Arguments Raise {A} e s.
Arguments Blocked {A} s.
Arguments OutOfFuel {A}.

Definition M (A : Type) : Type := NEL → Outcome A.

Definition ret {A} (a : A) : M A := λ s, Ret a s.

Definition bind {A B} (m : M A) (k : A → M B) : M B :=
  λ s, match m s with
       | Ret a s' => k a s'
       | Raise e s' => Raise e s'
       | Blocked s' => Blocked s'
       | OutOfFuel => OutOfFuel
       end.

Definition raise {A} (e : Exn) : M A := λ s, Raise e s.

(** [try: m except Exception as e: h e]. *)
Definition try_except {A} (m : M A) (h : Exn → M A) : M A :=
  λ s, match m s with
       | Raise e s' => h e s'
       | o => o
       end.

Definition get_state : M NEL := λ s, Ret s s.
Definition modify (f : NEL → NEL) : M unit := λ s, Ret tt (f s).

Declare Scope nel_scope.
Delimit Scope nel_scope with nel.
Notation "x <- m ;; k" := (bind m (λ x, k))
  (at level 100, m at next level, right associativity) : nel_scope.
Notation "m ;; k" := (bind m (λ _, k))
  (at level 100, right associativity) : nel_scope.
Open Scope nel_scope.

(** [d[k]] on a dictionary: the value, or [KeyError]. *)
Definition getitem `{Countable K} {V} (d : NEL → gmap K V) (k : K) : M V :=
  λ s, match d s !! k with
       | Some v => Ret v s
       | None => Raise KeyError s
       end.

(** [q.put(x)] and [q.get()] on a queue of the store.  A [get] on an empty
    queue waits for a producer; no producer is part of the state, so it
    blocks. *)
Definition queue_contents (q : nat) (s : NEL) : list QItem :=
  default [] (queues s !! q).

Definition queue_put (q : nat) (x : QItem) : M unit :=
  modify (λ s, set_queues (<[q := queue_contents q s ++ [x]]> (queues s)) s).

Definition queue_get (q : nat) : M QItem :=
  λ s, match queue_contents q s with
       | [] => Blocked s
       | x :: rest => Ret x (set_queues (<[q := rest]> (queues s)) s)
       end.

Definition out_queue_put (x : QItem) : M unit :=
  λ s, queue_put (out_queue s) x s.

Definition in_queue_get : M QItem :=
  λ s, queue_get (in_queue s) s.

(** Methods of [self.particle_caches[device]] and
    [self.view_caches[device]], lifted to the state. *)
Definition pcache_try_read (device pid : nat) (pin : bool) : M (option Module) :=
  c <- getitem particle_caches device ;;
  let '(m, c') := Cache.try_read c pid pin in
  modify (λ s, set_particle_caches (<[device := c']> (particle_caches s)) s) ;;
  ret m.

Definition pcache_release (device pid : nat) (t : Thread) : M unit :=
  c <- getitem particle_caches device ;;
  modify (λ s, set_particle_caches (<[device := Cache.release c pid t]> (particle_caches s)) s).

(** *** Context switching *)

(** [OrderedDict] operations on [_device_to_pthread]. *)
Fixpoint pthread_lookup (device : nat) (l : list (nat * (nat * Thread)))
  : option (nat * Thread) :=
  match l with
  | [] => None
  | e :: l' => if decide (e.1 = device) then Some e.2 else pthread_lookup device l'
  end.

Definition pthread_remove (device : nat) (l : list (nat * (nat * Thread)))
  : list (nat * (nat * Thread)) :=
  filter (λ e, e.1 ≠ device) l.

(** [d[device] = v]: a present key keeps its position, a new one goes last. *)
Fixpoint pthread_assign (device : nat) (v : nat * Thread)
    (l : list (nat * (nat * Thread))) : list (nat * (nat * Thread)) :=
  match l with
  | [] => [(device, v)]
  | e :: l' => if decide (e.1 = device) then (device, v) :: l'
               else e :: pthread_assign device v l'
  end.

Definition _wait_particle_thread (pid : nat) : M unit :=
  pid_device <- getitem _particle_to_device pid ;;
  s <- get_state ;;
  match pthread_lookup pid_device (_device_to_pthread s) with
  | Some (active_pid, active_thread) =>
      modify (set_device_to_pthread (pthread_remove pid_device (_device_to_pthread s))) ;;
      active_pid_device <- getitem _particle_to_device active_pid ;;
      pcache_release active_pid_device active_pid active_thread
  | None => ret tt
  end.

(** The [while module is None] loop of [_context_switch_module].  Every turn
    pops the oldest entry of [_device_to_pthread], and nothing in the loop
    adds one, so the loop is a recursion on that dictionary; popping from
    the empty dictionary raises [KeyError]. *)
Fixpoint reload_module (pthreads : list (nat * (nat * Thread)))
    (pid_device pid : nat) (pin : bool) (module : option Module) : M Module :=
  match module with
  | Some m => ret m
  | None =>
      match pthreads with
      | [] => raise KeyError
      | (_, (active_pid, active_thread)) :: rest =>
          modify (set_device_to_pthread rest) ;;
          active_pid_device <- getitem _particle_to_device active_pid ;;
          pcache_release active_pid_device active_pid active_thread ;;
          module' <- pcache_try_read pid_device pid pin ;;
          reload_module rest pid_device pid pin module'
      end
  end.

Definition _context_switch_module (pid : nat) (pin : bool) : M Module :=
  pid_device <- getitem _particle_to_device pid ;;
  _wait_particle_thread pid ;;
  module <- pcache_try_read pid_device pid pin ;;
  s <- get_state ;;
  reload_module (_device_to_pthread s) pid_device pid pin module.

(** *** Futures *)

Definition _create_future_id : M nat :=
  s <- get_state ;;
  let fid := _future_id s in
  modify (set_future_id (_future_id s + 1)) ;;
  ret fid.

Definition _register_future (pid fid : nat) : M unit :=
  futures <- getitem _particle_to_futures pid ;;
  modify (λ s, set_particle_to_futures (<[pid := futures ∪ {[fid]}]> (_particle_to_futures s)) s) ;;
  modify (λ s, set_future_to_particle (<[fid := pid]> (_future_to_particle s)) s).

(** The inner function [check_results] of [_wait]. *)
Definition check_results (fid : nat) : M (bool * PyVal) :=
  s <- get_state ;;
  match _results s !! fid with
  | Some result =>
      modify (set_results (delete fid (_results s))) ;;
      pid <- getitem _future_to_particle fid ;;
      modify (λ s, set_future_to_particle (delete fid (_future_to_particle s)) s) ;;
      futures <- getitem _particle_to_futures pid ;;
      (if decide (fid ∈ futures) then
         modify (λ s, set_particle_to_futures
                        (<[pid := futures ∖ {[fid]}]> (_particle_to_futures s)) s)
       else raise KeyError) ;;
      ret (true, result)
  | None => ret (false, VNone)
  end.

(** ** Particles and futures *)

(** Modelled from the spec: [Particle] of [push/particle.py], the transient
    actor view handed to a handler, built as
    [Particle(self, pid_device, pid, module, state)]. *)
Record Particle := mkParticle {
  particle_device : nat;
  particle_pid : nat;
  particle_module : Module;
  particle_state : PyVal
}.

(** Modelled from the spec: [PFuture] of [push/pfuture.py], built as
    [PFuture(self, pid_curr, pid, fid, t=None)]: the future id, the owner,
    the target, and the optional handle of a worker in flight. *)
Record PFuture := mkPFuture {
  future_pid : nat;
  future_pid_to : nat;
  future_fid : nat;
  future_t : option Thread
}.

(** [param.copy_(p)]: the values of [p] are written into the storage of
    [param], which stays where it is. *)
Definition copy_ (param p : Tensor) : Tensor :=
  mkTensor (t_data p) (t_place param) (t_attached param).

(** [t.to(device)]. *)
Definition to_device (device : nat) (t : Tensor) : Tensor :=
  mkTensor (t_data t) (Cuda device) (t_attached t).

(** The copy loop of [get]:
    [for param, p in zip(module_on_curr.parameters(), module.parameters())].
    Parameters beyond the shorter list are left as they are. *)
Fixpoint copy_parameters (device_curr : nat) (module_on_curr module : Module) : Module :=
  match module_on_curr, module with
  | param :: rest, p :: rest' =>
      mkParam (copy_ (p_data param) (p_data p))
              (match p_grad p with
               | Some g => Some (to_device device_curr g)
               | None => p_grad param
               end)
      :: copy_parameters device_curr rest rest'
  | _, _ => module_on_curr
  end.

(** The copy loop of [_dispatch_receive_get_ack]:
    [for param, p, p_grad in zip(module.parameters(), msg.params, msg.params_grad)]. *)
Fixpoint copy_snapshot (pid_device : nat) (module : Module)
    (params : list Tensor) (params_grad : list (option Tensor)) : Module :=
  match module, params, params_grad with
  | param :: rest, p :: ps, g :: gs =>
      mkParam (copy_ (p_data param) p)
              (match g with
               | Some g' => Some (to_device pid_device g')
               | None => p_grad param
               end)
      :: copy_snapshot pid_device rest ps gs
  | _, _, _ => module
  end.

Section NodeEventLoop.

(** What calling a callable does: user code receives the particle and the
    arguments, and runs against the whole event loop. *)
Variable call : Callable → Particle → list PyVal → M PyVal.

(** The module that the factory [mk_module] builds from its [args]. *)
Variable mk_module : Module.

(** [module.forward(x, *args)]: a value, or the exception it raises. *)
Variable module_forward : Module → PyVal → list PyVal → PyVal + Exn.

(** [fn(particle, *args)] for an entry [fn] of a handler table.  A pair
    stored by [register_receive] is a tuple, and calling a tuple raises
    [TypeError]. *)
Definition call_hook (fn : Hook) (particle : Particle) (args : list PyVal) : M PyVal :=
  match fn with
  | HFn c => call c particle args
  | HPair _ _ => raise TypeError
  end.

(** *** Dispatch *)

(** The branch of [_dispatch] for [NodeEvtLoopCleanupMSG]. *)
Definition dispatch_cleanup : M bool := ret false.

(** [_cleanup] calls [self._dispatch(NodeEvtLoopCleanupMSG())] and drops
    what it returns ([_cleanup_dispatch] below ties the two). *)
Definition _cleanup : M unit :=
  _ <- dispatch_cleanup ;; ret tt.

Definition _dispatch (msg : QItem) : M bool :=
  match msg with
  | QMsg (ReceiveFuncMSG sender pid msg_name args) =>
      hooks <- getitem _hooks pid ;;
      match hooks !! msg_name with
      | Some fn =>
          state <- getitem _particle_to_state pid ;;
          pid_device <- getitem _particle_to_device pid ;;
          _context_switch_module pid false ;;
          (* the result of the switch is dropped, and [module] is a local
             of [_dispatch] that nothing on this path has assigned *)
          raise UnboundLocalError
      | None => ret true
      end
  | QMsg (ReceiveGetMSG pid_fid pid_caller pid) =>
      pid_device <- getitem _particle_to_device pid ;;
      (* [self._context_switch_module(pid)] reads the local [pid], which
         nothing on this path has assigned *)
      raise UnboundLocalError
  | QMsg (ReceiveParametersPDMSG pid_fid pid) =>
      pid_device <- getitem _particle_to_device pid ;;
      module <- _context_switch_module pid false ;;
      let params := map (λ x, mkTensor (t_data (p_data x)) CPU false) module in
      out_queue_put (QMsg (ReceiveParametersAckPDMSG pid_fid params)) ;;
      ret true
  | QMsg (ReceiveRegisterPDMSG pid msg fn state) =>
      hooks <- getitem _hooks pid ;;
      modify (λ s, set_hooks (<[pid := <[msg := HFn fn]> hooks]> (_hooks s)) s) ;;
      out_queue_put (QMsg ReceiveRegisterAckPDMSG) ;;
      ret true
  | QMsg (ReceiveParticleInitPDMSG device pid mk_optim receive state) =>
      modify (λ s, set_particle_to_rank (<[pid := rank s]> (_particle_to_rank s)) s) ;;
      modify (λ s, set_particle_to_device (<[pid := device]> (_particle_to_device s)) s) ;;
      _ <- getitem particle_caches device ;;
      (* the arguments of [create] read [msg.mk_scheduler], an attribute
         that [ReceiveParticleInitPDMSG.__init__] does not set *)
      raise AttributeError
  | QMsg (NELSaveModel pid_fid) =>
      s <- get_state ;;
      (if bool_decide (map_Forall (λ _ pid_device, is_Some (particle_caches s !! pid_device))
                                  (_particle_to_device s))
       then ret tt else raise KeyError) ;;
      out_queue_put (QMsg (NELSaveModelAckPDMSG pid_fid)) ;;
      ret true
  | QMsg (NELBroadcastParticlesMSG in_queues out_queues particle_to_device) =>
      modify (set_in_queues in_queues) ;;
      modify (set_out_queues out_queues) ;;
      modify (set_particle_to_device particle_to_device) ;;
      out_queue_put (QMsg NELBroadcastParticlesAckMSG) ;;
      ret true
  | QMsg NodeEvtLoopCleanupMSG => dispatch_cleanup
  | QMsg (ReceiveFuncPDMSG sender pid msg_name args) =>
      hooks <- getitem _hooks pid ;;
      match hooks !! msg_name with
      | Some fn =>
          state <- getitem _particle_to_state pid ;;
          pid_device <- getitem _particle_to_device pid ;;
          module <- _context_switch_module pid false ;;
          let particle := mkParticle pid_device pid module state in
          y <- try_except (call_hook fn particle args)
                 (λ e, out_queue_put (QExn e) ;; _cleanup ;; raise e) ;;
          out_queue_put (QMsg (ReceiveFuncAckPDMSG sender y)) ;;
          ret true
      | None => ret true
      end
  | _ => ret true
  end.

(** [_start_event_loop]: [fuel] bounds the number of messages taken. *)
Fixpoint _start_event_loop (fuel : nat) : M unit :=
  match fuel with
  | 0 => λ _, OutOfFuel
  | S fuel' =>
      msg <- in_queue_get ;;
      go <- _dispatch msg ;;
      if go then _start_event_loop fuel' else ret tt
  end.

(** *** Waiting *)

(** [self.view_caches[device].read(pid)], the blocking read: where the
    non-blocking one reports absence, it waits. *)
Definition vcache_read (device pid : nat) : M Module :=
  c <- getitem view_caches device ;;
  match Cache.try_read c pid false with
  | (Some m, c') =>
      modify (λ s, set_view_caches (<[device := c']> (view_caches s)) s) ;;
      ret m
  | (None, _) => λ s, Blocked s
  end.

Definition vcache_create (device pid : nat) : M Module :=
  c <- getitem view_caches device ;;
  match Cache.create mk_module c pid with
  | Some (m, c') =>
      modify (λ s, set_view_caches (<[device := c']> (view_caches s)) s) ;;
      ret m
  | None => raise ValueError
  end.

(** Writing through the reference to a module of a view cache. *)
Definition vcache_store (device pid : nat) (m : Module) : M unit :=
  c <- getitem view_caches device ;;
  modify (λ s, set_view_caches (<[device := Cache.store c pid m]> (view_caches s)) s).

Definition _dispatch_receive_get_ack (fid pid : nat) (params : list Tensor)
    (params_grad : list (option Tensor)) : M unit :=
  pid_device <- getitem _particle_to_device pid ;;
  c <- getitem view_caches pid_device ;;
  module <- (if negb (Cache.contains c pid) then vcache_create pid_device pid
             else vcache_read pid_device pid) ;;
  vcache_store pid_device pid (copy_snapshot pid_device module params params_grad) ;;
  pid_device' <- getitem _particle_to_device pid ;;
  modify (λ s, set_results (<[fid := VView pid_device' pid]> (_results s)) s).

(** One turn of the [while not result[0]] loop of [_wait]: the next value
    of [result] and of the buffer [msgs]. *)
Definition wait_turn (fid : nat) (result : bool * PyVal) (msgs : list QItem)
  : M ((bool * PyVal) * list QItem) :=
  msg <- in_queue_get ;;
  match msg with
  | QMsg (ReceiveGetAckMSG fid' pid params params_grad) =>
      _dispatch_receive_get_ack fid' pid params params_grad ;;
      result' <- check_results fid ;;
      ret (result', msgs)
  | QMsg (ReceiveFuncMSG _ _ _ _) | QMsg (ReceiveFuncPDMSG _ _ _ _) =>
      ret (result, msgs ++ [msg])
  | _ =>
      _ <- _dispatch msg ;;
      ret (result, msgs)
  end.

Fixpoint wait_loop (fuel : nat) (fid : nat) (result : bool * PyVal)
    (msgs : list QItem) : M (PyVal * list QItem) :=
  if result.1 then ret (result.2, msgs)
  else match fuel with
       | 0 => λ _, OutOfFuel
       | S fuel' =>
           turn <- wait_turn fid result msgs ;;
           wait_loop fuel' fid turn.1 turn.2
       end.

(** [for msg in msgs: go = self._dispatch(msg)]. *)
Fixpoint replay (msgs : list QItem) : M unit :=
  match msgs with
  | [] => ret tt
  | msg :: rest => _ <- _dispatch msg ;; replay rest
  end.

Definition _wait (fuel : nat) (fid : nat) : M PyVal :=
  result <- check_results fid ;;
  waited <- wait_loop fuel fid result [] ;;
  replay waited.2 ;;
  ret waited.1.

(** Modelled from the spec: [PFuture.wait] of [push/pfuture.py] joins the
    worker of the future, if it has one, and waits for the future id on
    the event loop. Joining a worker changes nothing: workers run to
    completion when they are started (see [forward]). *)
Definition PFuture_wait (fuel : nat) (pfuture : PFuture) : M PyVal :=
  _wait fuel (future_fid pfuture).

(** [wait(pfutures)]: one future after the other, in the given order. *)
Fixpoint wait (fuel : nat) (pfutures : list PFuture) : M (list PyVal) :=
  match pfutures with
  | [] => ret []
  | pfuture :: rest =>
      y <- PFuture_wait fuel pfuture ;;
      acc <- wait fuel rest ;;
      ret (y :: acc)
  end.

(** *** Particle functionality *)

Definition particles : M (list nat) :=
  s <- get_state ;; ret (map fst (map_to_list (_particle_to_device s))).

Definition register_receive (pid : nat) (msg : string) (fn : Callable) (state : PyVal)
  : M unit :=
  hooks <- getitem _hooks pid ;;
  modify (λ s, set_hooks (<[pid := <[msg := HPair fn state]> hooks]> (_hooks s)) s).

(** [send] assigns to [send_particle.module]; the particle so updated is
    returned next to the future. *)
Definition send (send_particle : Particle) (pid_curr pid : nat) (msg_name : string)
    (args : list PyVal) : M (PFuture * Particle) :=
  fid <- _create_future_id ;;
  _register_future pid_curr fid ;;
  rank_id_curr <- getitem _particle_to_rank pid_curr ;;
  rank_id <- getitem _particle_to_rank pid ;;
  if decide (rank_id = rank_id_curr) then
    module <- _context_switch_module pid false ;;
    hooks <- getitem _hooks pid ;;
    fn <- (match hooks !! msg_name with Some fn => ret fn | None => raise KeyError end) ;;
    state <- getitem _particle_to_state pid ;;
    pid_device <- getitem _particle_to_device pid ;;
    let particle := mkParticle pid_device pid module state in
    let args2 := map (detach_to_device pid_device) args in
    y <- try_except (call_hook fn particle args2)
           (λ e, out_queue_put (QExn e) ;; _cleanup ;; raise e) ;;
    modify (λ s, set_results (<[fid := y]> (_results s)) s) ;;
    module_curr <- _context_switch_module pid_curr false ;;
    ret (mkPFuture pid_curr pid fid None,
         mkParticle (particle_device send_particle) (particle_pid send_particle)
                    module_curr (particle_state send_particle))
  else
    let args2 := map detach_to_cpu args in
    q <- getitem _in_queues rank_id ;;
    queue_put q (QMsg (ReceiveFuncMSG (pid_curr, fid) pid msg_name args2)) ;;
    ret (mkPFuture pid_curr pid fid None, send_particle).

(** [self.view_caches[device].try_read(pid)]. *)
Definition vcache_try_read (device pid : nat) : M (option Module) :=
  c <- getitem view_caches device ;;
  let '(m, c') := Cache.try_read c pid false in
  modify (λ s, set_view_caches (<[device := c']> (view_caches s)) s) ;;
  ret m.

(** [get]; only the branch under [if True:] can run. *)
Definition get (pid_curr pid : nat) : M PFuture :=
  fid <- _create_future_id ;;
  _register_future pid_curr fid ;;
  rank_id_curr <- getitem _particle_to_rank pid_curr ;;
  rank_id <- getitem _particle_to_rank pid ;;
  if decide (rank_id = rank_id_curr) then
    module <- _context_switch_module pid false ;;
    device_curr <- getitem _particle_to_device pid_curr ;;
    c <- getitem view_caches device_curr ;;
    module_on_curr <- (if negb (Cache.contains c pid)
                       then m <- vcache_create device_curr pid ;; ret (Some m)
                       else vcache_try_read device_curr pid) ;;
    match module_on_curr with
    | None => raise AttributeError
    | Some module_on_curr =>
        vcache_store device_curr pid (copy_parameters device_curr module_on_curr module) ;;
        modify (λ s, set_results (<[fid := VView device_curr pid]> (_results s)) s) ;;
        ret (mkPFuture pid_curr pid fid None)
    end
  else
    q <- getitem _in_queues rank_id ;;
    queue_put q (QMsg (ReceiveGetMSG fid pid_curr pid)) ;;
    ret (mkPFuture pid_curr pid fid None).

(** *** NN functionality *)

(** The worker of [forward].  An exception in it is put on [out_queue],
    [_cleanup] is called, and the exception is raised again, which ends
    the worker thread and nothing else: neither [Thread.start] nor
    [Thread.join] passes it on to the thread of the event loop. *)
Definition forward_worker (fid : nat) (module : Module) (x : PyVal) (args : list PyVal)
  : M unit :=
  match module_forward module x args with
  | inl y => modify (λ s, set_results (<[fid := y]> (_results s)) s)
  | inr e => out_queue_put (QExn e) ;; _cleanup
  end.

(** [forward].  The worker thread is run to completion where it is
    started, one of the schedules the threads allow. *)
Definition forward (pid : nat) (x : PyVal) (args : list PyVal) : M PFuture :=
  fid <- _create_future_id ;;
  _register_future pid fid ;;
  module <- _context_switch_module pid false ;;
  let t := fid in
  pid_device <- getitem _particle_to_device pid ;;
  modify (λ s, set_device_to_pthread
                 (pthread_assign pid_device (pid, t) (_device_to_pthread s)) s) ;;
  forward_worker fid module x args ;;
  ret (mkPFuture pid pid fid (Some t)).

End NodeEventLoop.

Section Scheduler.

(** What the body of the worker of [scheduler_step] ends in: nothing, or
    the exception it raises.  The body looks the optimizer and the
    scheduler of the particle up in the particle cache and steps the
    scheduler; both live outside the state of the event loop. *)
Variable scheduler_body : nat → NEL → option Exn.

(** The worker of [scheduler_step]; see [forward_worker] for what an
    exception in a worker does. *)
Definition scheduler_worker (pid : nat) : M unit :=
  λ s, match scheduler_body pid s with
       | None => Ret tt s
       | Some e => (out_queue_put (QExn e) ;; _cleanup) s
       end.

(** [scheduler_step], with its worker run to completion where it is
    started. *)
Definition scheduler_step (pid : nat) (args : list PyVal) : M PFuture :=
  fid <- _create_future_id ;;
  _register_future pid fid ;;
  module <- _context_switch_module pid true ;;
  let t := fid in
  pid_device <- getitem _particle_to_device pid ;;
  modify (λ s, set_device_to_pthread
                 (pthread_assign pid_device (pid, t) (_device_to_pthread s)) s) ;;
  scheduler_worker pid ;;
  ret (mkPFuture pid pid fid (Some t)).

End Scheduler.

Arguments call_hook call fn particle args : simpl never.

(** * Vocabulary of the properties *)

(** [n] successive calls of the future-id generator. *)
Fixpoint issue_future_ids (n : nat) : M (list nat) :=
  match n with
  | 0 => ret []
  | S n' =>
      fid <- _create_future_id ;;
      fids <- issue_future_ids n' ;;
      ret (fid :: fids)
  end.

(** The state without its caches and its record of running workers: what a
    context switch never touches. *)
Definition outside_caches (s : NEL) : NEL :=
  set_particle_caches ∅ (set_device_to_pthread [] s).

(** A computation that only works on the particle caches. *)
Definition cache_only {A} (m : M A) : Prop :=
  ∀ s, match m s with
       | Ret _ s' | Raise _ s' => outside_caches s' = outside_caches s
       | _ => False
       end.

(** The future [fid] is registered for [pid]: it is in the future-to-particle
    map and in the pending set of the particle. *)
Definition registered (fid pid : nat) (s : NEL) : Prop :=
  _future_to_particle s !! fid = Some pid
  ∧ ∃ futures, _particle_to_futures s !! pid = Some futures ∧ fid ∈ futures.

(** The state in which [fid] has been registered for [pid], whose pending
    set was [futures]. *)
Definition with_future (pid fid : nat) (futures : gset nat) (s : NEL) : NEL :=
  set_future_to_particle (<[fid := pid]> (_future_to_particle s))
    (set_particle_to_futures (<[pid := futures ∪ {[fid]}]> (_particle_to_futures s)) s).

(** The state in which the result of [fid], owned by [pid], has been
    consumed. *)
Definition consumed (fid pid : nat) (futures : gset nat) (s : NEL) : NEL :=
  set_particle_to_futures (<[pid := futures ∖ {[fid]}]> (_particle_to_futures s))
    (set_future_to_particle (delete fid (_future_to_particle s))
       (set_results (delete fid (_results s)) s)).

(** The state after [in_queue.get()] has taken the message at the head. *)
Definition take_message (s : NEL) : NEL :=
  set_queues (<[in_queue s := tail (queue_contents (in_queue s) s)]> (queues s)) s.

(** The state after [n] messages have been taken from [in_queue]. *)
Fixpoint taken (n : nat) (s : NEL) : NEL :=
  match n with
  | 0 => s
  | S n' => take_message (taken n' s)
  end.

(** The messages that [_wait] buffers, and the one it handles inline. *)
Definition is_invocation_request (msg : QItem) : bool :=
  match msg with
  | QMsg (ReceiveFuncMSG _ _ _ _) | QMsg (ReceiveFuncPDMSG _ _ _ _) => true
  | _ => false
  end.

Definition is_get_ack (msg : QItem) : bool :=
  match msg with
  | QMsg (ReceiveGetAckMSG _ _ _ _) => true
  | _ => false
  end.

(** The parameter values of a module. *)
Definition parameter_values (m : Module) : list (list Z) :=
  map (λ x, t_data (p_data x)) m.

(** The parameter values of the resource of a particle. *)
Definition resource_parameters (pid : nat) (s : NEL) : option (list (list Z)) :=
  device ← _particle_to_device s !! pid;
  c ← particle_caches s !! device;
  m ← modules c !! pid;
  Some (parameter_values m).

(** Modelled from the spec: [ParticleView] of [push/particle.py], the lazy
    read-only view [ParticleView(view_caches[device], pid)]: its parameters
    are read from the entry of the view cache when they are asked for. *)
Definition view_parameters (view : PyVal) (s : NEL) : option (list (list Z)) :=
  match view with
  | VView device pid =>
      c ← view_caches s !! device;
      m ← modules c !! pid;
      Some (parameter_values m)
  | _ => None
  end.

(** The resources held by the particle caches, devices and residency
    aside. *)
Definition resources (s : NEL) : gmap nat (gmap nat Module) :=
  modules <$> particle_caches s.

(** Every module of a cache has the architecture of the factory. *)
Definition uniform_cache (mk_module : Module) (c : ParticleCache) : Prop :=
  map_Forall (λ _ m, length m = length mk_module) (modules c).

Definition uniform (mk_module : Module) (s : NEL) : Prop :=
  map_Forall (λ _ c, uniform_cache mk_module c) (particle_caches s)
  ∧ map_Forall (λ _ c, uniform_cache mk_module c) (view_caches s).

#[global] Instance uniform_cache_dec mk_module c : Decision (uniform_cache mk_module c).
Proof. unfold uniform_cache. apply _. Defined.

#[global] Instance uniform_dec mk_module s : Decision (uniform mk_module s).
Proof. unfold uniform. apply _. Defined.

(** A context switch moves resources in and out of the device; it does
    not change a resource. *)
Definition keeps_resources {A} (m : M A) : Prop :=
  ∀ s a s', m s = Ret a s' → resources s' = resources s.

(** A computation that leaves the record of running workers alone. *)
Definition keeps_pthread {A} (m : M A) : Prop :=
  ∀ s a s', m s = Ret a s' → _device_to_pthread s' = _device_to_pthread s.

(** The result [y] of the future [fid] is recorded, and the future is
    registered for some particle. *)
Definition ready (fid : nat) (y : PyVal) (s : NEL) : Prop :=
  _results s !! fid = Some y ∧ ∃ pid, registered fid pid s.

(** The messages that [_dispatch] has no branch for, and the exception
    objects that travel on the queues. *)
Definition is_ignored (msg : QItem) : bool :=
  match msg with
  | QMsg NodeEvtLoopInitMSG | QMsg NELBroadcastParticlesAckMSG
  | QMsg (NELSaveModelAckPDMSG _) | QMsg ReceiveParticleInitAckPDMSG
  | QMsg ReceiveRegisterAckPDMSG | QMsg (ReceiveFuncAckPDMSG _ _)
  | QMsg (ReceiveParametersAckPDMSG _ _) | QMsg ReceiveFuncAckMSG
  | QMsg (ReceiveGetAckMSG _ _ _ _) | QExn _ => true
  | _ => false
  end.

(** * Module objects *)

(** The caches above hold the contents of their modules.  Whether two
    cache entries hold one and the same module object is what this part
    adds: every entry is given the identity of the object it holds,
    entries with one identity are aliases, and an in-place write to an
    object is seen through every entry that holds it.  [get] is embedded
    once more at this level, where [create] builds a new object and the
    copy loop writes into the object of the view entry.

    Identities are per module.  The parameter tensors of a module belong to
    it alone, as [param.copy_(p)] writes into [param] and never rebinds it;
    gradient tensors, which [p.grad.to(device_curr)] may share between the
    source and the view, are outside of what the views are read for
    here. *)
Module Storage.

(** A cache entry: the view cache ([true]) or the particle cache ([false])
    of a device, and a pid. *)
Abbreviation Slot := (bool * nat * nat)%type.

(** The entries that a family of caches has. *)
Definition entries (view : bool) (caches : gmap nat ParticleCache) : list Slot :=
  map_to_list caches ≫= (λ dc, (λ pm, (view, dc.1, pm.1)) <$> map_to_list (modules dc.2)).

(** All the entries of the event loop, and the objects that they hold. *)
Definition all_entries (s : NEL) : list Slot :=
  entries false (particle_caches s) ++ entries true (view_caches s).

Definition objects (obj : Slot → nat) (s : NEL) : list nat :=
  obj <$> all_entries s.

(** The identity of an object that no entry holds. *)
Definition new_object (obj : Slot → nat) (s : NEL) : nat :=
  S (max_list (objects obj s)).

(** The caches after the contents [m] have been written into the object
    [o]: every entry that holds [o] has them. *)
Definition write_cache (o : nat) (m : Module) (obj : Slot → nat) (view : bool)
    (d : nat) (c : ParticleCache) : ParticleCache :=
  mkCache (cache_size c)
          (map_imap (λ p m0, Some (if decide (obj (view, d, p) = o) then m else m0))
                    (modules c))
          (resident c) (pinned c).

Definition write_entries (o : nat) (m : Module) (obj : Slot → nat) (view : bool)
    (caches : gmap nat ParticleCache) : gmap nat ParticleCache :=
  map_imap (λ d c, Some (write_cache o m obj view d c)) caches.

Definition write_object (o : nat) (m : Module) (obj : Slot → nat) (s : NEL) : NEL :=
  set_view_caches (write_entries o m obj true (view_caches s))
    (set_particle_caches (write_entries o m obj false (particle_caches s)) s).

Section Get.

Variable mk_module : Module.

(** Modelled from the spec: [create] of [ParticleCache]
    ([push/lib/context_switch.py]) builds the resource with the module
    factory, so the entry it makes holds a new object. *)
Definition vcache_create (device pid : nat) (obj : Slot → nat)
  : M (Module * (Slot → nat)) :=
  s <- get_state ;;
  m <- vcache_create mk_module device pid ;;
  ret (m, <[(true, device, pid) := new_object obj s]> obj).

(** [get], with the objects of the entries next to the state.  On the
    same-rank branch the copy loop writes into [module_on_curr], the object
    of the view entry; the source [module] is only read. *)
Definition get (pid_curr pid : nat) (obj : Slot → nat) : M (PFuture * (Slot → nat)) :=
  fid <- _create_future_id ;;
  _register_future pid_curr fid ;;
  rank_id_curr <- getitem _particle_to_rank pid_curr ;;
  rank_id <- getitem _particle_to_rank pid ;;
  if decide (rank_id = rank_id_curr) then
    module <- _context_switch_module pid false ;;
    device_curr <- getitem _particle_to_device pid_curr ;;
    c <- getitem view_caches device_curr ;;
    on_curr <- (if negb (Cache.contains c pid)
                then mo <- vcache_create device_curr pid obj ;; ret (Some mo.1, mo.2)
                else m <- vcache_try_read device_curr pid ;; ret (m, obj)) ;;
    match on_curr.1 with
    | None => raise AttributeError
    | Some module_on_curr =>
        modify (write_object (on_curr.2 (true, device_curr, pid))
                  (copy_parameters device_curr module_on_curr module) on_curr.2) ;;
        modify (λ s, set_results (<[fid := VView device_curr pid]> (_results s)) s) ;;
        ret (mkPFuture pid_curr pid fid None, on_curr.2)
    end
  else
    q <- getitem _in_queues rank_id ;;
    queue_put q (QMsg (ReceiveGetMSG fid pid_curr pid)) ;;
    ret (mkPFuture pid_curr pid fid None, obj).

End Get.

(** No view entry holds the object of a particle entry. *)
Definition separated (obj : Slot → nat) (s : NEL) : Prop :=
  Forall (λ v, Forall (λ w, obj v ≠ obj w) (entries false (particle_caches s)))
         (entries true (view_caches s)).

(** No two entries hold one object. *)
Definition unshared (obj : Slot → nat) (s : NEL) : Prop :=
  Forall (λ x, Forall (λ y, obj x = obj y → x = y) (all_entries s)) (all_entries s).

(** The particle cache of [device] has a resource for [pid]. *)
Definition has_resource (s : NEL) (device pid : nat) : Prop :=
  (false, device, pid) ∈ entries false (particle_caches s).

(** A mutation of resources: in-place writes, one after the other, of new
    contents into the module objects of particle entries. *)
Definition mutate (obj : Slot → nat) (writes : list (nat * nat * Module)) (s : NEL) : NEL :=
  foldl (λ s w, write_object (obj (false, w.1.1, w.1.2)) w.2 obj s) s writes.

End Storage.

#[global] Instance separated_dec obj s : Decision (Storage.separated obj s).
Proof. unfold Storage.separated. apply _. Defined.

#[global] Instance unshared_dec obj s : Decision (Storage.unshared obj s).
Proof. unfold Storage.unshared. apply _. Defined.

#[global] Instance has_resource_dec s device pid : Decision (Storage.has_resource s device pid).
Proof. unfold Storage.has_resource. apply _. Defined.

(** * A node with two particles *)

Module Example.

Definition tensor_on_cpu : Tensor := mkTensor [1%Z; 2%Z] CPU true.

Definition ex_module (v : Z) : Module :=
  [mkParam (mkTensor [v; (v + 1)%Z] (Cuda 0) true) None].

Definition ex_mk_module : Module := ex_module 0.

(** Callable 0 returns its first argument, any other callable raises. *)
Definition ex_call (c : Callable) (particle : Particle) (args : list PyVal) : M PyVal :=
  match c with
  | 0 => ret (hd VNone args)
  | _ => raise (UserError c)
  end.

(** A module whose [forward] raises. *)
Definition ex_forward (module : Module) (x : PyVal) (args : list PyVal) : PyVal + Exn :=
  inr (UserError 7).

(** Rank 0 with device 0; particles 0 and 1 live on it, particle 1
    handles [ECHO] with callable 0 and [FAIL] with callable 1.  Particle
    2 is known to live on rank 1, whose queue is queue 5. *)
Definition ex_state (inbound : list QItem) : NEL :=
  mkNEL 0 [0] 0 1 {[0 := inbound; 1 := []; 5 := []]} {[0 := 0; 1 := 5]} ∅
        {[0 := 0; 1 := 0; 2 := 1]} {[0 := 0; 1 := 0]} {[0 := VNone; 1 := VInt 3]}
        {[0 := ∅; 1 := {["ECHO"%string := HFn 0; "FAIL"%string := HFn 1]}]} []
        {[0 := mkCache 2 {[0 := ex_module 10; 1 := ex_module 20]} [0; 1] ∅]}
        {[0 := mkCache 2 ∅ [] ∅]}
        0 {[0 := ∅; 1 := ∅]} ∅ ∅.

Definition ex_particle : Particle := mkParticle 0 0 (ex_module 10) VNone.

Definition ex_future : PFuture := mkPFuture 0 1 0 None.

Definition state_of {A} (o : Outcome A) : NEL :=
  match o with
  | Ret _ s | Raise _ s | Blocked s => s
  | OutOfFuel => ex_state []
  end.

(** The state after particle 0 has sent [ECHO] to particle 1. *)
Definition ex_sent : NEL :=
  state_of (send ex_call ex_particle 0 1 "ECHO" [VTensor tensor_on_cpu] (ex_state [])).

(** The state after particle 0 has got a view of particle 1. *)
Definition ex_got : NEL :=
  state_of (get ex_mk_module 0 1 (ex_state [])).

Definition ex_request : QItem := QMsg (ReceiveFuncPDMSG (7, 0) 1 "ECHO" [VTensor tensor_on_cpu]).

Definition ex_unknown : QItem := QMsg (ReceiveFuncPDMSG (7, 0) 1 "NOPE" []).

Definition ex_get_ack : QItem := QMsg (ReceiveGetAckMSG 0 1 [mkTensor [5%Z; 6%Z] CPU false] [None]).

Definition ex_func_ack : QItem := QMsg (ReceiveFuncAckPDMSG (0, 0) VNone).

(** Particle 0 has asked for a view of a particle, future 0 is pending. *)
Definition ex_waiting (inbound : list QItem) : NEL :=
  with_future 0 0 ∅ (set_future_id 1 (ex_state inbound)).

(** Particle 1 has a worker in flight on device 0. *)
Definition ex_busy : NEL := set_device_to_pthread [(0, (1, 0))] (ex_state []).

(** Particle 3 is mapped to device 0, but no resource was created for it. *)
Definition ex_stranger : NEL := set_particle_to_device {[3 := 0]} (ex_state []).

(** The state after particle 0 has sent [ECHO] to particle 1 twice. *)
Definition ex_sent_twice : NEL :=
  state_of (send ex_call ex_particle 0 1 "ECHO" [VInt 5] ex_sent).

(** A result was recorded for future 4, which nobody registered. *)
Definition ex_orphan : NEL := set_results {[4 := VInt 1]} (ex_state []).

(** The state after [register_receive] has stored a handler for [PING] on
    particle 1. *)
Definition ex_registered : NEL :=
  state_of (register_receive 1 "PING" 0 VNone (ex_state [])).

(** A module whose [forward] returns its input. *)
Definition ex_forward_id (module : Module) (x : PyVal) (args : list PyVal) : PyVal + Exn :=
  inl x.

(** A scheduler that steps without an exception. *)
Definition ex_scheduler (pid : nat) (s : NEL) : option Exn := None.

Definition ex_remote_request : QItem := QMsg (ReceiveFuncMSG (2, 0) 1 "ECHO" []).

(** The objects of the cache entries: every entry holds an object of its
    own. *)
Definition ex_obj : Storage.Slot → nat :=
  λ slot, if slot.1.1 then 2 * slot.2 + 1 else 2 * slot.2.

(** Particle 0 gets a view of particle 1: the outcome, the objects and
    the state after it. *)
Definition ex_copied : Outcome (PFuture * (Storage.Slot → nat)) :=
  Storage.get ex_mk_module 0 1 ex_obj (ex_state []).

Definition ex_obj' : Storage.Slot → nat :=
  match ex_copied with Ret x _ => x.2 | _ => ex_obj end.

Definition ex_viewed : NEL := state_of ex_copied.

(** The view entry of particle 1 holds the object of its resource. *)
Definition ex_aliased : Storage.Slot → nat :=
  <[(true, 0, 1) := ex_obj' (false, 0, 1)]> ex_obj'.

End Example.

Import Example.

(** * Properties *)

(** ** Reasoning about computations *)

Lemma bind_Ret {A B} (m : M A) (k : A → M B) s b s' :
  bind m k s = Ret b s' ↔ ∃ a s1, m s = Ret a s1 ∧ k a s1 = Ret b s'.
Proof.
  unfold bind. split.
  - destruct (m s) as [a s1| | |] eqn:E; try discriminate. eauto.
  - intros (a & s1 & -> & H). exact H.
Qed.

Lemma bind_Ret_1 {A B} (m : M A) (k : A → M B) s a s1 :
  m s = Ret a s1 → bind m k s = k a s1.
Proof. unfold bind. now intros ->. Qed.

Lemma bind_Raise_1 {A B} (m : M A) (k : A → M B) s e s1 :
  m s = Raise e s1 → bind m k s = Raise e s1.
Proof. unfold bind. now intros ->. Qed.

Lemma getitem_Ret `{Countable K} {V} (d : NEL → gmap K V) k s v s' :
  getitem d k s = Ret v s' ↔ d s !! k = Some v ∧ s' = s.
Proof.
  unfold getitem. destruct (d s !! k) as [v0|]; split.
  - intros [= <- <-]. done.
  - intros [[= <-] ->]. done.
  - discriminate.
  - intros [[=] _].
Qed.

Lemma getitem_Some `{Countable K} {V} (d : NEL → gmap K V) k s v :
  d s !! k = Some v → getitem d k s = Ret v s.
Proof. intros. now apply getitem_Ret. Qed.

Lemma getitem_None `{Countable K} {V} (d : NEL → gmap K V) k s :
  d s !! k = None → getitem d k s = Raise KeyError s.
Proof. unfold getitem. now intros ->. Qed.

Lemma modify_Ret f s u s' : modify f s = Ret u s' ↔ s' = f s.
Proof.
  unfold modify. destruct u. split; [now intros [= <-] | now intros ->].
Qed.

Lemma ret_Ret {A} (a b : A) s s' : ret a s = Ret b s' ↔ a = b ∧ s = s'.
Proof. unfold ret. split; [now intros [= <- <-] | now intros [<- <-]]. Qed.

Lemma get_state_Ret s a s' : get_state s = Ret a s' ↔ a = s ∧ s' = s.
Proof. unfold get_state. split; [now intros [= <- <-] | now intros [-> ->]]. Qed.

(** Taking successful runs apart, one bind at a time. *)
Ltac inv_run :=
  repeat match goal with
    | H : bind _ _ _ = Ret _ _ |- _ => apply bind_Ret in H as (? & ? & ? & H)
    | H : ret _ _ = Ret _ _ |- _ => apply ret_Ret in H as [? ?]
    | H : modify _ _ = Ret _ _ |- _ => apply modify_Ret in H
    | H : getitem _ _ _ = Ret _ _ |- _ => apply getitem_Ret in H as [? ?]
    | H : get_state _ = Ret _ _ |- _ => apply get_state_Ret in H as [? ?]
    | H : raise _ _ = Ret _ _ |- _ => discriminate H
    end.

(** ** Future ids *)

Lemma _create_future_id_run s :
  _create_future_id s = Ret (_future_id s) (set_future_id (_future_id s + 1) s).
Proof. reflexivity. Qed.

Lemma issue_future_ids_run n s :
  ∃ s', issue_future_ids n s = Ret (seq (_future_id s) n) s'
        ∧ _future_id s' = _future_id s + n.
Proof.
  revert s. induction n as [|n IH]; intros s; simpl.
  - exists s. split; [reflexivity | lia].
  - rewrite (bind_Ret_1 _ _ _ _ _ (_create_future_id_run s)).
    destruct (IH (set_future_id (_future_id s + 1) s)) as (s' & Hrun & Hid).
    rewrite (bind_Ret_1 _ _ _ _ _ Hrun). exists s'. simpl in *.
    replace (_future_id s + 1) with (S (_future_id s)) in * by lia.
    split; [reflexivity | lia].
Qed.

(** C5. The future ids that successive calls of [_create_future_id] produce
    on one event loop are strictly increasing, and so pairwise distinct. *)
Theorem future_ids_strictly_increasing (n : nat) (s : NEL) :
  ∃ fids s',
    issue_future_ids n s = Ret fids s'
    ∧ length fids = n
    ∧ (∀ i j a b, i < j → fids !! i = Some a → fids !! j = Some b → a < b)
    ∧ NoDup fids.
Proof.
  destruct (issue_future_ids_run n s) as (s' & Hrun & _).
  exists (seq (_future_id s) n), s'. split; [exact Hrun|].
  split; [apply length_seq|]. split.
  - intros i j a b Hij Ha Hb.
    apply lookup_seq in Ha as [-> _]. apply lookup_seq in Hb as [-> _]. lia.
  - apply NoDup_seq.
Qed.

(** ** The particle cache *)

Lemma pin_if_modules pin p c : modules (Cache.pin_if pin p c) = modules c.
Proof. now destruct pin. Qed.

Lemma pin_if_resident pin p c : resident (Cache.pin_if pin p c) = resident c.
Proof. now destruct pin. Qed.

Lemma load_Some p c c' :
  Cache.load p c = Some c' → modules c' = modules c ∧ p ∈ resident c'.
Proof.
  unfold Cache.load, Cache.evict_oldest_unpinned. intros H.
  destruct (decide (length (resident c) < cache_size c)).
  - injection H as <-. simpl. split; [done | set_solver].
  - destruct (Cache.oldest_unpinned (pinned c) (resident c)); [|discriminate].
    injection H as <-. simpl. split; [done | set_solver].
Qed.

(** A read that succeeds leaves the resource resident, and hands out the
    resource the cache holds. *)
Lemma try_read_Some c p pin m c' :
  Cache.try_read c p pin = (Some m, c') →
  modules c !! p = Some m ∧ modules c' = modules c ∧ p ∈ resident c'.
Proof.
  unfold Cache.try_read. intros H.
  destruct (modules c !! p) as [m0|] eqn:Hm; [|discriminate].
  destruct (decide (p ∈ resident c)) as [Hin|Hout].
  - injection H as <- <-. now rewrite pin_if_modules, pin_if_resident.
  - destruct (Cache.load p c) as [c1|] eqn:Ha; [|discriminate].
    injection H as <- <-. apply load_Some in Ha as [Hmod Hres].
    now rewrite pin_if_modules, pin_if_resident, Hmod.
Qed.

Lemma try_read_modules c p pin :
  modules (Cache.try_read c p pin).2 = modules c.
Proof.
  unfold Cache.try_read.
  destruct (modules c !! p) as [m0|]; [|done].
  destruct (decide (p ∈ resident c)); simpl; [apply pin_if_modules|].
  destruct (Cache.load p c) as [c1|] eqn:Ha; [|done]. simpl.
  rewrite pin_if_modules. now apply load_Some in Ha as [-> _].
Qed.

(** ** Context switching *)

Lemma cache_only_ret {A} (a : A) : cache_only (ret a).
Proof. now intros s. Qed.

Lemma cache_only_raise {A} e : cache_only (@raise A e).
Proof. now intros s. Qed.

Lemma cache_only_bind {A B} (m : M A) (k : A → M B) :
  cache_only m → (∀ a, cache_only (k a)) → cache_only (bind m k).
Proof.
  intros Hm Hk s. unfold bind. specialize (Hm s).
  destruct (m s) as [a s1|e s1| |]; try done.
  specialize (Hk a s1). destruct (k a s1); try done; congruence.
Qed.

Lemma cache_only_getitem `{Countable K} {V} (d : NEL → gmap K V) k :
  cache_only (getitem d k).
Proof. intros s. unfold getitem. now destruct (d s !! k). Qed.

Lemma cache_only_get_state : cache_only get_state.
Proof. now intros s. Qed.

Lemma cache_only_set_caches (f : NEL → gmap nat ParticleCache) :
  cache_only (modify (λ s, set_particle_caches (f s) s)).
Proof. now intros s. Qed.

Lemma cache_only_set_pthread v : cache_only (modify (set_device_to_pthread v)).
Proof. now intros s. Qed.

Create HintDb cache_only.
#[local] Hint Resolve cache_only_ret cache_only_raise cache_only_getitem
  cache_only_get_state cache_only_set_caches cache_only_set_pthread : cache_only.

Ltac cache_only_step :=
  first [ solve [auto with cache_only] | apply cache_only_bind; [|intros ?] ].

Lemma cache_only_try_read device pid pin : cache_only (pcache_try_read device pid pin).
Proof.
  unfold pcache_try_read. apply cache_only_bind; [cache_only_step|intros c].
  destruct (Cache.try_read c pid pin). repeat cache_only_step.
Qed.

Lemma cache_only_release device pid t : cache_only (pcache_release device pid t).
Proof. unfold pcache_release. repeat cache_only_step. Qed.

#[local] Hint Resolve cache_only_try_read cache_only_release : cache_only.

Lemma cache_only_wait_particle_thread pid : cache_only (_wait_particle_thread pid).
Proof.
  unfold _wait_particle_thread.
  apply cache_only_bind; [cache_only_step|intros d].
  apply cache_only_bind; [cache_only_step|intros s].
  destruct (pthread_lookup d (_device_to_pthread s)) as [[? ?]|];
    repeat cache_only_step.
Qed.

Lemma cache_only_reload pthreads pid_device pid pin module :
  cache_only (reload_module pthreads pid_device pid pin module).
Proof.
  revert module. induction pthreads as [|[d [ap at_]] rest IH]; intros [m|]; simpl;
    try solve [auto with cache_only].
  repeat cache_only_step.
Qed.

#[local] Hint Resolve cache_only_wait_particle_thread cache_only_reload : cache_only.

Lemma cache_only_context_switch pid pin : cache_only (_context_switch_module pid pin).
Proof. unfold _context_switch_module. repeat cache_only_step. Qed.

(** A context switch returns or raises, and leaves everything but the
    particle caches as it was. *)
Lemma context_switch_frame pid pin s m s' :
  _context_switch_module pid pin s = Ret m s' → outside_caches s' = outside_caches s.
Proof. intros H. pose proof (cache_only_context_switch pid pin s) as F. now rewrite H in F. Qed.

Lemma pcache_try_read_Some device pid pin s m s' :
  pcache_try_read device pid pin s = Ret (Some m) s' →
  ∃ c, particle_caches s' !! device = Some c
       ∧ modules c !! pid = Some m ∧ pid ∈ resident c.
Proof.
  unfold pcache_try_read. intros Hread. inv_run. subst.
  destruct (Cache.try_read _ pid pin) as [om c'] eqn:Htry.
  inv_run. subst. apply try_read_Some in Htry as (Hm & Hmod & Hres).
  exists c'. simpl. rewrite lookup_insert_eq, Hmod. done.
Qed.

Lemma reload_resident pthreads pid_device pid pin module s m s' :
  reload_module pthreads pid_device pid pin module s = Ret m s' →
  (∀ m0, module = Some m0 →
         ∃ c, particle_caches s !! pid_device = Some c
              ∧ modules c !! pid = Some m0 ∧ pid ∈ resident c) →
  ∃ c, particle_caches s' !! pid_device = Some c
       ∧ modules c !! pid = Some m ∧ pid ∈ resident c.
Proof.
  revert module s. induction pthreads as [|[d [ap at_]] rest IH]; intros [m0|] s; simpl.
  - intros [= <- <-] H. eauto.
  - discriminate.
  - intros [= <- <-] H. eauto.
  - intros Hrun _. inv_run.
    match goal with H : reload_module _ _ _ _ _ _ = _ |- _ => eapply IH; [exact H|] end.
    intros m1 ->. eapply pcache_try_read_Some. eassumption.
Qed.

(** After a context switch for [pid] has returned [m], the cache of the
    device of [pid] holds [m] for [pid], resident. *)
Lemma context_switch_resident pid pin s m s' :
  _context_switch_module pid pin s = Ret m s' →
  ∃ device c, _particle_to_device s !! pid = Some device
              ∧ particle_caches s' !! device = Some c
              ∧ modules c !! pid = Some m ∧ pid ∈ resident c.
Proof.
  unfold _context_switch_module. intros Hrun. inv_run. subst.
  match goal with H : reload_module _ _ _ _ _ _ = _ |- _ =>
    eapply reload_resident in H as (c & ? & ? & ?) end.
  - eexists _, c. split; [eassumption|done].
  - intros m1 ->. eapply pcache_try_read_Some. eassumption.
Qed.

(** ** Futures *)

Lemma _register_future_Ret pid fid s u s' :
  _register_future pid fid s = Ret u s' ↔
  ∃ futures, _particle_to_futures s !! pid = Some futures
             ∧ s' = with_future pid fid futures s.
Proof.
  unfold _register_future. split.
  - intros H. inv_run. subst. eauto.
  - intros (futures & Hf & ->). destruct u.
    rewrite (bind_Ret_1 _ _ _ _ _ (getitem_Some _ _ _ _ Hf)). reflexivity.
Qed.

Lemma _register_future_run pid fid futures s :
  _particle_to_futures s !! pid = Some futures →
  _register_future pid fid s = Ret tt (with_future pid fid futures s).
Proof. intros Hf. apply _register_future_Ret. eauto. Qed.

Lemma with_future_registered pid fid futures s :
  registered fid pid (with_future pid fid futures s).
Proof.
  split; simpl; [apply lookup_insert_eq|].
  exists (futures ∪ {[fid]}). rewrite lookup_insert_eq. split; [done | set_solver].
Qed.

Lemma check_results_ready fid pid futures y s :
  _results s !! fid = Some y →
  _future_to_particle s !! fid = Some pid →
  _particle_to_futures s !! pid = Some futures →
  fid ∈ futures →
  check_results fid s = Ret (true, y) (consumed fid pid futures s).
Proof.
  intros Hy Hp Hf Hin. unfold check_results, bind at 1. simpl. rewrite Hy.
  unfold bind at 1. simpl. unfold bind at 1, getitem at 1. simpl. rewrite Hp.
  unfold bind at 1. simpl. unfold bind at 1, getitem at 1. simpl. rewrite Hf.
  unfold bind at 1. rewrite decide_True by done. reflexivity.
Qed.

Lemma check_results_pending fid s :
  _results s !! fid = None → check_results fid s = Ret (false, VNone) s.
Proof. intros Hy. unfold check_results, bind. simpl. now rewrite Hy. Qed.

Section Properties.

Variable call : Callable → Particle → list PyVal → M PyVal.
Variable mk_module : Module.
Variable module_forward : Module → PyVal → list PyVal → PyVal + Exn.

(** A wait for a future whose result is recorded returns it on the first
    check: nothing is taken from a queue, and the future leaves the
    results, the future-to-particle map and the pending set of its
    owner. *)
Lemma _wait_ready fuel fid pid futures y s :
  _results s !! fid = Some y →
  _future_to_particle s !! fid = Some pid →
  _particle_to_futures s !! pid = Some futures →
  fid ∈ futures →
  _wait call mk_module fuel fid s = Ret y (consumed fid pid futures s).
Proof.
  intros Hy Hp Hf Hin. unfold _wait.
  rewrite (bind_Ret_1 _ _ _ _ _ (check_results_ready _ _ _ _ _ Hy Hp Hf Hin)).
  destruct fuel; reflexivity.
Qed.

(** The handler of the [except] clauses: the exception goes on
    [out_queue], [_cleanup] changes nothing, the exception is raised
    again. *)
Lemma except_clause_run {A} e s :
  (out_queue_put (QExn e) ;; _cleanup ;; @raise A e) s
  = Raise e (set_queues (<[out_queue s := queue_contents (out_queue s) s ++ [QExn e]]>
                           (queues s)) s).
Proof. reflexivity. Qed.

Lemma try_except_Ret {A} (m : M A) e_handler s a s' :
  try_except m (λ e, out_queue_put (QExn e) ;; _cleanup ;; raise (e_handler e)) s = Ret a s' →
  m s = Ret a s'.
Proof.
  unfold try_except. destruct (m s) as [a0 s0|e s0| |]; try done.
Qed.

(** What a same-rank [send] that returns has done, step by step. *)
Lemma send_same_rank_inv send_particle pid_curr pid msg_name args s fut sp' s' r :
  _particle_to_rank s !! pid_curr = Some r →
  _particle_to_rank s !! pid = Some r →
  send call send_particle pid_curr pid msg_name args s = Ret (fut, sp') s' →
  ∃ futures module s1 hooks fn state pid_device y s2 module_curr,
    _particle_to_futures s !! pid_curr = Some futures
    ∧ _context_switch_module pid false
        (with_future pid_curr (_future_id s) futures (set_future_id (_future_id s + 1) s))
      = Ret module s1
    ∧ _hooks s1 !! pid = Some hooks
    ∧ hooks !! msg_name = Some fn
    ∧ _particle_to_state s1 !! pid = Some state
    ∧ _particle_to_device s1 !! pid = Some pid_device
    ∧ call_hook call fn (mkParticle pid_device pid module state)
        (map (detach_to_device pid_device) args) s1 = Ret y s2
    ∧ _context_switch_module pid_curr false
        (set_results (<[_future_id s := y]> (_results s2)) s2) = Ret module_curr s'
    ∧ fut = mkPFuture pid_curr pid (_future_id s) None
    ∧ sp' = mkParticle (particle_device send_particle) (particle_pid send_particle)
                       module_curr (particle_state send_particle).
Proof.
  intros Hr1 Hr2. unfold send.
  rewrite (bind_Ret_1 _ _ _ _ _ (_create_future_id_run s)).
  intros Hrun. apply bind_Ret in Hrun as ([] & s0 & Hreg & Hrun).
  apply _register_future_Ret in Hreg as (futures & Hf & ->).
  apply bind_Ret in Hrun as (rc & ? & [Hrc ->]%getitem_Ret & Hrun).
  apply bind_Ret in Hrun as (rt & ? & [Hrt ->]%getitem_Ret & Hrun).
  simpl in Hrc, Hrt. rewrite Hr1 in Hrc. rewrite Hr2 in Hrt.
  injection Hrc as <-. injection Hrt as <-.
  rewrite decide_True in Hrun by done.
  apply bind_Ret in Hrun as (module & s1 & Hsw & Hrun).
  apply bind_Ret in Hrun as (hooks & ? & [Hh ->]%getitem_Ret & Hrun).
  destruct (hooks !! msg_name) as [fn|] eqn:Hfn;
    [rewrite (bind_Ret_1 _ _ _ fn s1) in Hrun by done|discriminate].
  apply bind_Ret in Hrun as (state & ? & [Hst ->]%getitem_Ret & Hrun).
  apply bind_Ret in Hrun as (pid_device & ? & [Hdev ->]%getitem_Ret & Hrun).
  apply bind_Ret in Hrun as (y & s2 & Hcall & Hrun).
  apply (try_except_Ret _ (λ e, e)) in Hcall.
  apply bind_Ret in Hrun as ([] & ? & ->%modify_Ret & Hrun).
  apply bind_Ret in Hrun as (module_curr & ? & Hback & [[= <- <-] <-]%ret_Ret).
  exists futures, module, s1, hooks, fn, state, pid_device, y, s2, module_curr.
  done.
Qed.




(** C4. When a same-rank [send] returns, the resource of the sender has
    been switched back in: the last step of [send] is a context switch for
    the sender, whose result is the module that the particle of the sender
    now carries, and that resource is resident in the cache of the device
    of the sender. *)
Theorem send_restores_caller_resource
    send_particle pid_curr pid msg_name args s r fut sp' s'
    (Hrank1 : _particle_to_rank s !! pid_curr = Some r)
    (Hrank2 : _particle_to_rank s !! pid = Some r)
    (Hsend : send call send_particle pid_curr pid msg_name args s = Ret (fut, sp') s') :
  ∃ s_handled device c,
    _context_switch_module pid_curr false s_handled = Ret (particle_module sp') s'
    ∧ _particle_to_device s' !! pid_curr = Some device
    ∧ particle_caches s' !! device = Some c
    ∧ pid_curr ∈ resident c
    ∧ modules c !! pid_curr = Some (particle_module sp').
Proof.
  destruct (send_same_rank_inv _ _ _ _ _ _ _ _ _ _ Hrank1 Hrank2 Hsend)
    as (futures & module & s1 & hooks & fn & state & pid_device & y & s2 & module_curr
        & Hf & Hsw & Hh & Hfn & Hst & Hdev & Hcall & Hback & -> & ->).
  destruct (context_switch_resident _ _ _ _ _ Hback) as (device & c & Hd & Hc & Hm & Hres).
  pose proof (f_equal _particle_to_device (context_switch_frame _ _ _ _ _ Hback)) as E.
  simpl in E, Hd. eexists _, device, c. simpl. rewrite E. split; [exact Hback|done].
Qed.


(** ** Dispatch of invocation requests *)

(** C9. A [send] to a particle of another rank copies every argument to
    its host-resident form, puts one [ReceiveFuncMSG] with the sender's
    pid and future id, the target pid, the operation name and those
    copies on the queue of the target rank, and returns the future at
    once: no handler runs and no result is recorded. *)
Theorem send_cross_rank
    send_particle pid_curr pid msg_name args s rank_id_curr rank_id futures q
    (Hrank1 : _particle_to_rank s !! pid_curr = Some rank_id_curr)
    (Hrank2 : _particle_to_rank s !! pid = Some rank_id)
    (Hdiff : rank_id ≠ rank_id_curr)
    (Hfutures : _particle_to_futures s !! pid_curr = Some futures)
    (Hqueue : _in_queues s !! rank_id = Some q) :
  let fid := _future_id s in
  let args2 := map detach_to_cpu args in
  let request := QMsg (ReceiveFuncMSG (pid_curr, fid) pid msg_name args2) in
  let s0 := with_future pid_curr fid futures (set_future_id (fid + 1) s) in
  Forall host_resident args2
  ∧ send call send_particle pid_curr pid msg_name args s
    = Ret (mkPFuture pid_curr pid fid None, send_particle)
          (set_queues (<[q := queue_contents q s ++ [request]]> (queues s)) s0)
  ∧ _results (set_queues (<[q := queue_contents q s ++ [request]]> (queues s)) s0)
    = _results s.
Proof.
  simpl. split_and!; [| |reflexivity].
  - apply Forall_forall. intros v [a [-> _]]%list_elem_of_fmap.
    destruct a; simpl; done.
  - unfold send.
    rewrite (bind_Ret_1 _ _ _ _ _ (_create_future_id_run s)).
    erewrite bind_Ret_1; [|apply _register_future_run; eassumption].
    erewrite bind_Ret_1; [|apply getitem_Some; simpl; exact Hrank1].
    erewrite bind_Ret_1; [|apply getitem_Some; simpl; exact Hrank2].
    rewrite decide_False by done.
    erewrite bind_Ret_1; [|apply getitem_Some; simpl; exact Hqueue].
    reflexivity.
Qed.

Lemma dispatch_unknown_operation s pid hooks op sender args msg :
  _hooks s !! pid = Some hooks →
  hooks !! op = None →
  msg = QMsg (ReceiveFuncMSG sender pid op args)
  ∨ msg = QMsg (ReceiveFuncPDMSG sender pid op args) →
  _dispatch call msg s = Ret true s.
Proof.
  intros Hh Hop [-> | ->]; unfold _dispatch;
    rewrite (bind_Ret_1 _ _ _ _ _ (getitem_Some _hooks _ _ _ Hh)); now rewrite Hop.
Qed.

(** One turn of the event loop on a message that is dispatched without
    stopping the loop. *)
Lemma _start_event_loop_turn fuel s msg rest s1 :
  queue_contents (in_queue s) s = msg :: rest →
  _dispatch call msg (set_queues (<[in_queue s := rest]> (queues s)) s) = Ret true s1 →
  _start_event_loop call (S fuel) s = _start_event_loop call fuel s1.
Proof.
  intros Hq Hd. simpl. unfold bind at 1, in_queue_get, queue_get.
  rewrite Hq. unfold bind at 1. now rewrite Hd.
Qed.

(** An exception of the dispatch ends the event loop with that
    exception: nothing more is taken from the queue. *)
Lemma _start_event_loop_raise fuel s msg rest e s1 :
  queue_contents (in_queue s) s = msg :: rest →
  _dispatch call msg (set_queues (<[in_queue s := rest]> (queues s)) s) = Raise e s1 →
  _start_event_loop call (S fuel) s = Raise e s1.
Proof.
  intros Hq Hd. simpl. unfold bind at 1, in_queue_get, queue_get.
  rewrite Hq. unfold bind at 1. now rewrite Hd.
Qed.

Lemma cache_only_outcome {A} (m : M A) s :
  cache_only m →
  (∃ a s', m s = Ret a s' ∧ outside_caches s' = outside_caches s)
  ∨ (∃ e s', m s = Raise e s').
Proof.
  intros Hm. specialize (Hm s). destruct (m s) as [a s'|e s'| |]; try done; eauto.
Qed.

(** A same-rank [send] of an operation that the handler table of the
    target does not have never returns a future: it raises. *)
Lemma send_unknown_operation send_particle pid_curr pid op args s r hooks :
  _particle_to_rank s !! pid_curr = Some r →
  _particle_to_rank s !! pid = Some r →
  _hooks s !! pid = Some hooks →
  hooks !! op = None →
  ∃ e s', send call send_particle pid_curr pid op args s = Raise e s'.
Proof.
  intros Hr1 Hr2 Hh Hop. unfold send.
  rewrite (bind_Ret_1 _ _ _ _ _ (_create_future_id_run s)).
  destruct (_particle_to_futures s !! pid_curr) as [futures|] eqn:Hf.
  - erewrite bind_Ret_1; [|apply _register_future_run; eassumption].
    erewrite bind_Ret_1; [|apply getitem_Some; simpl; exact Hr1].
    erewrite bind_Ret_1; [|apply getitem_Some; simpl; exact Hr2].
    rewrite decide_True by done.
    destruct (cache_only_outcome (_context_switch_module pid false)
                (with_future pid_curr (_future_id s) futures
                   (set_future_id (_future_id s + 1) s))
                (cache_only_context_switch _ _))
      as [(module & s1 & Hsw & F) | (e & s1 & Hsw)].
    + rewrite (bind_Ret_1 _ _ _ _ _ Hsw).
      pose proof (f_equal _hooks F) as E. simpl in E.
      erewrite bind_Ret_1; [|apply getitem_Some; rewrite E; exact Hh].
      rewrite Hop. eauto.
    + rewrite (bind_Raise_1 _ _ _ _ _ Hsw). eauto.
  - erewrite bind_Raise_1; [eauto|].
    unfold _register_future. erewrite bind_Raise_1; [eauto|].
    apply getitem_None. exact Hf.
Qed.

(** C6 (amended). An invocation request, of either kind, whose operation
    is not in the handler table of its target is ignored by the
    dispatch: it returns [True] and leaves the state as it was, so no
    error and no acknowledgment appears, and the event loop goes on to
    the next message.  A same-rank [send] does not behave so: for an
    unknown operation it raises instead of returning a future. *)
Theorem unknown_operation_dropped_by_dispatch
    s pid hooks op sender args msg
    (Hhooks : _hooks s !! pid = Some hooks)
    (Hop : hooks !! op = None)
    (Hmsg : msg = QMsg (ReceiveFuncMSG sender pid op args)
            ∨ msg = QMsg (ReceiveFuncPDMSG sender pid op args)) :
  _dispatch call msg s = Ret true s
  ∧ (∀ fuel s0 rest,
       queue_contents (in_queue s0) s0 = msg :: rest →
       s = set_queues (<[in_queue s0 := rest]> (queues s0)) s0 →
       _start_event_loop call (S fuel) s0 = _start_event_loop call fuel s)
  ∧ (∀ send_particle pid_curr r,
       _particle_to_rank s !! pid_curr = Some r →
       _particle_to_rank s !! pid = Some r →
       ∃ e s', send call send_particle pid_curr pid op args s = Raise e s').
Proof.
  pose proof (dispatch_unknown_operation _ _ _ _ _ _ _ Hhooks Hop Hmsg) as Hd.
  split_and!; [exact Hd | |].
  - intros fuel s0 rest Hq ->. eapply _start_event_loop_turn; eauto.
  - intros sp pid_curr r Hr1 Hr2. eapply send_unknown_operation; eauto.
Qed.

(** The dispatch of a [ReceiveFuncPDMSG] whose operation is known, once the
    context switch has returned. *)
Lemma dispatch_request_run
    s sender pid op args hooks fn state pid_device module s1 :
  _hooks s !! pid = Some hooks →
  hooks !! op = Some fn →
  _particle_to_state s !! pid = Some state →
  _particle_to_device s !! pid = Some pid_device →
  _context_switch_module pid false s = Ret module s1 →
  _dispatch call (QMsg (ReceiveFuncPDMSG sender pid op args)) s
  = match call_hook call fn (mkParticle pid_device pid module state) args s1 with
    | Ret y s2 =>
        Ret true (set_queues (<[out_queue s2 := queue_contents (out_queue s2) s2
                                  ++ [QMsg (ReceiveFuncAckPDMSG sender y)]]>
                                (queues s2)) s2)
    | Raise e s2 =>
        Raise e (set_queues (<[out_queue s2 := queue_contents (out_queue s2) s2
                                 ++ [QExn e]]> (queues s2)) s2)
    | Blocked s2 => Blocked s2
    | OutOfFuel => OutOfFuel
    end.
Proof.
  intros Hhooks Hop Hstate Hdevice Hswitch. unfold _dispatch.
  rewrite (bind_Ret_1 _ _ _ _ _ (getitem_Some _hooks _ _ _ Hhooks)). rewrite Hop.
  rewrite (bind_Ret_1 _ _ _ _ _ (getitem_Some _particle_to_state _ _ _ Hstate)).
  rewrite (bind_Ret_1 _ _ _ _ _ (getitem_Some _particle_to_device _ _ _ Hdevice)).
  rewrite (bind_Ret_1 _ _ _ _ _ Hswitch).
  unfold bind at 1, try_except.
  destruct (call_hook call fn _ args s1) as [y s2|e s2|s2|]; reflexivity.
Qed.

(** C8 (amended). For a [ReceiveFuncPDMSG] whose operation is in the
    handler table of its target, the dispatch switches the resource of
    the target in, builds the particle from the pid, the device, that
    resource and the user state, and runs the handler on it with the
    arguments of the message as they arrived.  A result is acknowledged
    on [out_queue] under the pid and future id of the sender; an
    exception is put on [out_queue] and raised again. *)
Theorem dispatch_invocation_request
    s sender pid op args hooks fn state pid_device module s1
    (Hhooks : _hooks s !! pid = Some hooks)
    (Hop : hooks !! op = Some fn)
    (Hstate : _particle_to_state s !! pid = Some state)
    (Hdevice : _particle_to_device s !! pid = Some pid_device)
    (Hswitch : _context_switch_module pid false s = Ret module s1) :
  (∃ c, particle_caches s1 !! pid_device = Some c
        ∧ pid ∈ resident c ∧ modules c !! pid = Some module)
  ∧ _dispatch call (QMsg (ReceiveFuncPDMSG sender pid op args)) s
    = match call_hook call fn (mkParticle pid_device pid module state) args s1 with
      | Ret y s2 =>
          Ret true (set_queues (<[out_queue s2 := queue_contents (out_queue s2) s2
                                    ++ [QMsg (ReceiveFuncAckPDMSG sender y)]]>
                                  (queues s2)) s2)
      | Raise e s2 =>
          Raise e (set_queues (<[out_queue s2 := queue_contents (out_queue s2) s2
                                   ++ [QExn e]]> (queues s2)) s2)
      | Blocked s2 => Blocked s2
      | OutOfFuel => OutOfFuel
      end.
Proof.
  split.
  - destruct (context_switch_resident _ _ _ _ _ Hswitch) as (d & c & Hd & Hc & Hm & Hr).
    assert (d = pid_device) as -> by congruence. eauto.
  - now apply dispatch_request_run with (hooks := hooks).
Qed.

(** ** Waiting *)

Lemma in_queue_take s : in_queue (take_message s) = in_queue s.
Proof. reflexivity. Qed.

Lemma in_queue_taken n s : in_queue (taken n s) = in_queue s.
Proof.
  induction n as [|n IH]; [done|].
  change (taken (S n) s) with (take_message (taken n s)). now rewrite in_queue_take.
Qed.

Lemma contents_take s :
  queue_contents (in_queue s) (take_message s) = tail (queue_contents (in_queue s) s).
Proof. unfold queue_contents at 1. simpl. now rewrite lookup_insert_eq. Qed.

Lemma contents_taken n s :
  queue_contents (in_queue s) (taken n s) = drop n (queue_contents (in_queue s) s).
Proof.
  induction n as [|n IH]; [done|].
  change (taken (S n) s) with (take_message (taken n s)).
  pose proof (contents_take (taken n s)) as E. rewrite in_queue_taken in E.
  rewrite E, IH. generalize (queue_contents (in_queue s) s). clear. intros l. revert l.
  induction n as [|n IH]; intros [|x l]; simpl; done.
Qed.

Lemma taken_take n s : taken n (take_message s) = taken (S n) s.
Proof. induction n as [|n IH]; [done|]. simpl in *. now rewrite IH. Qed.

Lemma in_queue_get_cons s msg rest :
  queue_contents (in_queue s) s = msg :: rest →
  in_queue_get s = Ret msg (take_message s).
Proof.
  intros Hq. unfold in_queue_get, queue_get, take_message. now rewrite Hq.
Qed.

(** A remote-get acknowledgment is handled inline, and the results are
    checked again. *)
Lemma wait_turn_get_ack s fid result msgs fid' pid params params_grad rest :
  queue_contents (in_queue s) s
    = QMsg (ReceiveGetAckMSG fid' pid params params_grad) :: rest →
  wait_turn call mk_module fid result msgs s
  = (_dispatch_receive_get_ack mk_module fid' pid params params_grad ;;
     result' <- check_results fid ;; ret (result', msgs)) (take_message s).
Proof.
  intros Hq. unfold wait_turn. now rewrite (bind_Ret_1 _ _ _ _ _ (in_queue_get_cons _ _ _ Hq)).
Qed.

(** An invocation request goes to the end of the buffer; it is not
    dispatched. *)
Lemma wait_turn_request s fid result msgs msg rest :
  queue_contents (in_queue s) s = msg :: rest →
  is_invocation_request msg = true →
  wait_turn call mk_module fid result msgs s = Ret (result, msgs ++ [msg]) (take_message s).
Proof.
  intros Hq Hk. unfold wait_turn. rewrite (bind_Ret_1 _ _ _ _ _ (in_queue_get_cons _ _ _ Hq)).
  destruct msg as [[]|]; try discriminate; reflexivity.
Qed.

(** Every other message is dispatched at once and never buffered. *)
Lemma wait_turn_other s fid result msgs msg rest :
  queue_contents (in_queue s) s = msg :: rest →
  is_invocation_request msg = false →
  is_get_ack msg = false →
  wait_turn call mk_module fid result msgs s
  = (_ <- _dispatch call msg ;; ret (result, msgs)) (take_message s).
Proof.
  intros Hq Hk Ha. unfold wait_turn. rewrite (bind_Ret_1 _ _ _ _ _ (in_queue_get_cons _ _ _ Hq)).
  destruct msg as [[]|]; try discriminate; reflexivity.
Qed.

(** The requests at the head of the queue are buffered in the order of
    their arrival. *)
Lemma wait_loop_buffers reqs : ∀ fuel fid v msgs s later,
  Forall (λ msg, is_invocation_request msg = true) reqs →
  queue_contents (in_queue s) s = reqs ++ later →
  wait_loop call mk_module (length reqs + fuel) fid (false, v) msgs s
  = wait_loop call mk_module fuel fid (false, v) (msgs ++ reqs) (taken (length reqs) s).
Proof.
  induction reqs as [|msg reqs IH]; intros fuel fid v msgs s later Hreqs Hq.
  - simpl. now rewrite app_nil_r.
  - apply Forall_cons in Hreqs as [Hmsg Hreqs].
    change (length (msg :: reqs) + fuel) with (S (length reqs + fuel)).
    cbn [wait_loop fst].
    rewrite (bind_Ret_1 _ _ _ _ _ (wait_turn_request _ _ _ _ _ _ Hq Hmsg)).
    cbn [fst snd]. erewrite IH; [|exact Hreqs|].
    + rewrite taken_take. now rewrite <- app_assoc.
    + rewrite in_queue_take, contents_take, Hq. reflexivity.
Qed.

Lemma replay_app msgs1 msgs2 :
  ∀ s, replay call (msgs1 ++ msgs2) s = (replay call msgs1 ;; replay call msgs2) s.
Proof.
  induction msgs1 as [|msg msgs1 IH]; intros s; [reflexivity|].
  simpl. unfold bind in *. destruct (_dispatch call msg s); try reflexivity.
  apply IH.
Qed.

(** C3 (amended). While [_wait] waits: a remote-get acknowledgment is
    handled inline and the results are checked again; an invocation
    request, [ReceiveFuncMSG] or [ReceiveFuncPDMSG], is put at the end of
    the buffer and not dispatched; every other message, a function
    acknowledgment included, is dispatched at once and not buffered.
    When requests arrive ahead of the acknowledgment that resolves the
    future, the wait replays exactly those requests, in the order of
    their arrival, through [_dispatch], and then returns the result. *)
Theorem wait_buffers_requests_and_replays_in_order
    s fid reqs fid' pid params params_grad rest v s1
    (Hpending : _results s !! fid = None)
    (Hreqs : Forall (λ msg, is_invocation_request msg = true) reqs)
    (Hqueue : queue_contents (in_queue s) s
              = reqs ++ QMsg (ReceiveGetAckMSG fid' pid params params_grad) :: rest)
    (Hack : (_dispatch_receive_get_ack mk_module fid' pid params params_grad ;;
             check_results fid) (taken (S (length reqs)) s) = Ret (true, v) s1) :
  (∀ fuel, length reqs < fuel →
     _wait call mk_module fuel fid s = (replay call reqs ;; ret v) s1)
  ∧ (∀ s0 result msgs msg rest0,
       queue_contents (in_queue s0) s0 = msg :: rest0 →
       is_invocation_request msg = true →
       wait_turn call mk_module fid result msgs s0
       = Ret (result, msgs ++ [msg]) (take_message s0))
  ∧ (∀ s0 result msgs fid0 pid0 params0 grads0 rest0,
       queue_contents (in_queue s0) s0
         = QMsg (ReceiveGetAckMSG fid0 pid0 params0 grads0) :: rest0 →
       wait_turn call mk_module fid result msgs s0
       = (_dispatch_receive_get_ack mk_module fid0 pid0 params0 grads0 ;;
          result' <- check_results fid ;; ret (result', msgs)) (take_message s0))
  ∧ (∀ s0 result msgs msg rest0,
       queue_contents (in_queue s0) s0 = msg :: rest0 →
       is_invocation_request msg = false →
       is_get_ack msg = false →
       wait_turn call mk_module fid result msgs s0
       = (_ <- _dispatch call msg ;; ret (result, msgs)) (take_message s0)).
Proof.
  split_and!.
  - intros fuel Hfuel. unfold _wait.
    rewrite (bind_Ret_1 _ _ _ _ _ (check_results_pending _ _ Hpending)).
    replace fuel with (length reqs + S (fuel - S (length reqs))) by lia.
    unfold bind at 1.
    rewrite (wait_loop_buffers reqs _ _ _ _ _ _ Hreqs Hqueue).
    cbn [wait_loop fst app].
    assert (queue_contents (in_queue (taken (length reqs) s)) (taken (length reqs) s)
            = QMsg (ReceiveGetAckMSG fid' pid params params_grad) :: rest) as Hq.
    { rewrite in_queue_taken, contents_taken, Hqueue. now rewrite drop_app_length. }
    rewrite (bind_Ret_1 _ _ _ ((true, v), reqs) s1).
    + cbn [fst snd]. destruct (fuel - S (length reqs)); reflexivity.
    + rewrite (wait_turn_get_ack _ _ _ _ _ _ _ _ _ Hq).
      change (take_message (taken (length reqs) s)) with (taken (S (length reqs)) s).
      unfold bind at 1. unfold bind in Hack.
      destruct (_dispatch_receive_get_ack mk_module fid' pid params params_grad
                  (taken (S (length reqs)) s)) as [u s2| | |]; try discriminate.
      now rewrite (bind_Ret_1 _ _ _ _ _ Hack).
  - intros. eapply wait_turn_request; eassumption.
  - intros. eapply wait_turn_get_ack; eassumption.
  - intros. eapply wait_turn_other; eassumption.
Qed.

(** ** Views *)

Lemma copy_parameters_values device module_on_curr module :
  length module_on_curr = length module →
  parameter_values (copy_parameters device module_on_curr module) = parameter_values module.
Proof.
  revert module. induction module_on_curr as [|param rest IH]; intros [|p rest'];
    simpl; try done.
  intros [= Hlen]. unfold parameter_values in *. simpl. now rewrite IH.
Qed.

Lemma keeps_resources_bind {A B} (m : M A) (k : A → M B) :
  keeps_resources m → (∀ a, keeps_resources (k a)) → keeps_resources (bind m k).
Proof.
  intros Hm Hk s b s' (a & s1 & H1 & H2)%bind_Ret.
  rewrite (Hk _ _ _ _ H2). eapply Hm, H1.
Qed.

Lemma keeps_resources_getitem `{Countable K} {V} (d : NEL → gmap K V) k :
  keeps_resources (getitem d k).
Proof. intros s a s' [_ ->]%getitem_Ret. done. Qed.

Lemma resources_insert s device c c' :
  particle_caches s !! device = Some c →
  modules c' = modules c →
  resources (set_particle_caches (<[device := c']> (particle_caches s)) s) = resources s.
Proof.
  intros Hc Hm. unfold resources. simpl. rewrite fmap_insert, Hm.
  apply insert_id. now rewrite lookup_fmap, Hc.
Qed.

Lemma keeps_resources_try_read device pid pin :
  keeps_resources (pcache_try_read device pid pin).
Proof.
  intros s a s' Hrun. unfold pcache_try_read in Hrun.
  apply bind_Ret in Hrun as (c & ? & [Hc ->]%getitem_Ret & Hrun).
  pose proof (try_read_modules c pid pin) as Hm.
  destruct (Cache.try_read c pid pin) as [om c']. inv_run. subst.
  now apply resources_insert with (c := c).
Qed.

Lemma keeps_resources_release device pid t :
  keeps_resources (pcache_release device pid t).
Proof.
  intros s a s' Hrun. unfold pcache_release in Hrun.
  apply bind_Ret in Hrun as (c & ? & [Hc ->]%getitem_Ret & ->%modify_Ret).
  now apply resources_insert with (c := c).
Qed.

Lemma keeps_resources_set_pthread v : keeps_resources (modify (set_device_to_pthread v)).
Proof. intros s a s' ->%modify_Ret. done. Qed.

Lemma keeps_resources_wait_particle_thread pid :
  keeps_resources (_wait_particle_thread pid).
Proof.
  unfold _wait_particle_thread.
  apply keeps_resources_bind; [apply keeps_resources_getitem|intros d].
  intros s a s' Hrun. apply bind_Ret in Hrun as (s0 & ? & [-> ->]%get_state_Ret & Hrun).
  destruct (pthread_lookup d (_device_to_pthread s)) as [[ap at_]|].
  - revert Hrun. apply keeps_resources_bind; [apply keeps_resources_set_pthread|intros _].
    apply keeps_resources_bind; [apply keeps_resources_getitem|intros ?].
    apply keeps_resources_release.
  - now apply ret_Ret in Hrun as [_ ->].
Qed.

Lemma keeps_resources_reload pthreads pid_device pid pin module :
  keeps_resources (reload_module pthreads pid_device pid pin module).
Proof.
  revert module. induction pthreads as [|[d [ap at_]] rest IH]; intros [m|]; simpl.
  1, 3: intros s a s' [_ ->]%ret_Ret; done.
  1: intros s a s' H0; discriminate H0.
  apply keeps_resources_bind; [apply keeps_resources_set_pthread|intros _].
  apply keeps_resources_bind; [apply keeps_resources_getitem|intros ?].
  apply keeps_resources_bind; [apply keeps_resources_release|intros _].
  apply keeps_resources_bind; [apply keeps_resources_try_read|intros ?].
  apply IH.
Qed.

Lemma keeps_resources_context_switch pid pin :
  keeps_resources (_context_switch_module pid pin).
Proof.
  unfold _context_switch_module.
  apply keeps_resources_bind; [apply keeps_resources_getitem|intros d].
  apply keeps_resources_bind; [apply keeps_resources_wait_particle_thread|intros _].
  apply keeps_resources_bind; [apply keeps_resources_try_read|intros module].
  intros s a s' Hrun. apply bind_Ret in Hrun as (s0 & ? & [-> ->]%get_state_Ret & Hrun).
  eapply keeps_resources_reload, Hrun.
Qed.

(** What a context switch hands out is the resource that the particle
    had before the switch. *)
Lemma context_switch_resource pid s m s' :
  _context_switch_module pid false s = Ret m s' →
  resource_parameters pid s = Some (parameter_values m)
  ∧ ∃ device c, _particle_to_device s !! pid = Some device
                ∧ particle_caches s !! device = Some c ∧ modules c !! pid = Some m.
Proof.
  intros Hsw.
  destruct (context_switch_resident _ _ _ _ _ Hsw) as (device & c1 & Hd & Hc1 & Hm & _).
  pose proof (keeps_resources_context_switch _ _ _ _ _ Hsw) as R.
  pose proof (f_equal (λ r, r !! device) R) as E. unfold resources in E. simpl in E.
  rewrite !lookup_fmap, Hc1 in E. simpl in E.
  destruct (particle_caches s !! device) as [c|] eqn:Hc; [|discriminate].
  injection E as E. rewrite E in Hm.
  split; [|eauto]. unfold resource_parameters. rewrite Hd. simpl. rewrite Hc. simpl.
  now rewrite Hm.
Qed.

Lemma vcache_create_Ret device pid s m s' :
  vcache_create mk_module device pid s = Ret m s' →
  m = mk_module
  ∧ ∃ c', view_caches s' = <[device := c']> (view_caches s).
Proof.
  unfold vcache_create. intros Hrun.
  apply bind_Ret in Hrun as (c & ? & [Hc ->]%getitem_Ret & Hrun).
  unfold Cache.create in Hrun. destruct (modules c !! pid); [discriminate|].
  inv_run. subst. split; [done|]. eauto.
Qed.

Lemma vcache_try_read_Some device pid s m s' :
  vcache_try_read device pid s = Ret (Some m) s' →
  ∃ c c', view_caches s !! device = Some c ∧ modules c !! pid = Some m
          ∧ view_caches s' = <[device := c']> (view_caches s).
Proof.
  unfold vcache_try_read. intros Hrun.
  apply bind_Ret in Hrun as (c & ? & [Hc ->]%getitem_Ret & Hrun).
  destruct (Cache.try_read c pid false) as [om c'] eqn:Htry.
  inv_run. subst. apply try_read_Some in Htry as (Hm & _ & _).
  exists c, c'. done.
Qed.

Lemma vcache_store_Ret device pid m s u s' :
  vcache_store device pid m s = Ret u s' →
  ∃ c, view_caches s !! device = Some c
       ∧ view_caches s' = <[device := Cache.store c pid m]> (view_caches s).
Proof.
  unfold vcache_store. intros Hrun.
  apply bind_Ret in Hrun as (c & ? & [Hc ->]%getitem_Ret & ->%modify_Ret).
  exists c. done.
Qed.

(** On contents: a same-rank [get(pid_a, pid_b)] records a view whose
    parameter values are those that the resource of [pid_b] had when
    [get] was called, if every module has the architecture of the module
    factory. *)
Lemma get_view_values
    pid_a pid_b s r fut s'
    (Hrank1 : _particle_to_rank s !! pid_a = Some r)
    (Hrank2 : _particle_to_rank s !! pid_b = Some r)
    (Huniform : uniform mk_module s)
    (Hget : get mk_module pid_a pid_b s = Ret fut s') :
  ∃ view values,
    _results s' !! future_fid fut = Some view
    ∧ resource_parameters pid_b s = Some values
    ∧ view_parameters view s' = Some values.
Proof.
  destruct Huniform as [Hup Huv]. unfold get in Hget.
  rewrite (bind_Ret_1 _ _ _ _ _ (_create_future_id_run s)) in Hget.
  apply bind_Ret in Hget as ([] & s0 & Hreg & Hget).
  apply _register_future_Ret in Hreg as (futures & Hf & ->).
  apply bind_Ret in Hget as (rc & ? & [Hrc ->]%getitem_Ret & Hget).
  apply bind_Ret in Hget as (rt & ? & [Hrt ->]%getitem_Ret & Hget).
  simpl in Hrc, Hrt. rewrite Hrank1 in Hrc. rewrite Hrank2 in Hrt.
  injection Hrc as <-. injection Hrt as <-.
  rewrite decide_True in Hget by done.
  apply bind_Ret in Hget as (module & s1 & Hsw & Hget).
  apply bind_Ret in Hget as (device_curr & ? & [Hdc ->]%getitem_Ret & Hget).
  apply bind_Ret in Hget as (c & ? & [Hc ->]%getitem_Ret & Hget).
  apply bind_Ret in Hget as (om & s2 & Hview & Hget).
  destruct om as [module_on_curr|]; [|discriminate].
  apply bind_Ret in Hget as ([] & s3 & Hstore & Hget).
  apply bind_Ret in Hget as ([] & ? & ->%modify_Ret & [<- <-]%ret_Ret).
  (* the resource of [pid_b] at the call *)
  destruct (context_switch_resource _ _ _ _ Hsw) as (Hvalues & device & c0 & _ & Hc0 & Hm0).
  simpl in Hvalues, Hc0.
  assert (length module = length mk_module) as Hlen.
  { exact (Hup _ _ Hc0 _ _ Hm0). }
  (* the entry of the view cache that receives the copy *)
  pose proof (f_equal view_caches (context_switch_frame _ _ _ _ _ Hsw)) as Ev. simpl in Ev.
  assert (length module_on_curr = length mk_module) as Hlen'.
  { destruct (Cache.contains c pid_b) eqn:Hcon; simpl in Hview.
    - apply vcache_try_read_Some in Hview as (c1 & c' & Hc1 & Hm1 & _).
      rewrite Ev in Hc1. exact (Huv _ _ Hc1 _ _ Hm1).
    - apply bind_Ret in Hview as (m & ? & Hcr & [[= <-] _]%ret_Ret).
      now apply vcache_create_Ret in Hcr as [-> _]. }
  apply vcache_store_Ret in Hstore as (c2 & Hc2 & Hv3).
  exists (VView device_curr pid_b), (parameter_values module).
  assert (view_parameters (VView device_curr pid_b)
            (set_results (<[_future_id s := VView device_curr pid_b]> (_results s3)) s3)
          = Some (parameter_values module)) as Hview_values.
  { unfold view_parameters. simpl. rewrite Hv3, lookup_insert_eq. simpl.
    rewrite lookup_insert_eq. simpl.
    rewrite copy_parameters_values by congruence. done. }
  split_and!; simpl; [apply lookup_insert_eq|exact Hvalues|exact Hview_values].
Qed.

(** ** Exceptions *)

(** An exception of a handler that runs for a [ReceiveFuncPDMSG] is put
    on [out_queue] and raised again out of [_dispatch]. *)
Lemma dispatch_handler_exception
    s sender pid op args hooks fn state pid_device module s1 e s2 :
  _hooks s !! pid = Some hooks →
  hooks !! op = Some fn →
  _particle_to_state s !! pid = Some state →
  _particle_to_device s !! pid = Some pid_device →
  _context_switch_module pid false s = Ret module s1 →
  call_hook call fn (mkParticle pid_device pid module state) args s1 = Raise e s2 →
  _dispatch call (QMsg (ReceiveFuncPDMSG sender pid op args)) s
  = Raise e (set_queues (<[out_queue s2 := queue_contents (out_queue s2) s2 ++ [QExn e]]>
                           (queues s2)) s2).
Proof.
  intros Hh Hop Hst Hdev Hsw Hcall.
  rewrite (dispatch_request_run s sender pid op args _ _ _ _ _ _ Hh Hop Hst Hdev Hsw).
  now rewrite Hcall.
Qed.

(** The event loop that dispatches such a message ends with the
    exception; it takes no further message. *)
Lemma event_loop_handler_exception
    fuel s0 rest sender pid op args hooks fn state pid_device module s1 e s2 :
  let s := take_message s0 in
  queue_contents (in_queue s0) s0 = QMsg (ReceiveFuncPDMSG sender pid op args) :: rest →
  _hooks s !! pid = Some hooks →
  hooks !! op = Some fn →
  _particle_to_state s !! pid = Some state →
  _particle_to_device s !! pid = Some pid_device →
  _context_switch_module pid false s = Ret module s1 →
  call_hook call fn (mkParticle pid_device pid module state) args s1 = Raise e s2 →
  _start_event_loop call (S fuel) s0
  = Raise e (set_queues (<[out_queue s2 := queue_contents (out_queue s2) s2 ++ [QExn e]]>
                           (queues s2)) s2).
Proof.
  intros s Hq Hh Hop Hst Hdev Hsw Hcall.
  eapply _start_event_loop_raise; [exact Hq|].
  replace (set_queues (<[in_queue s0 := rest]> (queues s0)) s0) with s
    by (unfold s, take_message; now rewrite Hq).
  eapply dispatch_handler_exception; eauto.
Qed.

(** A [ReceiveFuncMSG] whose operation is in the handler table never
    reaches its handler: after the context switch, the dispatch reads a
    local variable that was not assigned. *)
Lemma dispatch_particle_request_unbound
    s sender pid op args hooks fn state pid_device module s1 :
  _hooks s !! pid = Some hooks →
  hooks !! op = Some fn →
  _particle_to_state s !! pid = Some state →
  _particle_to_device s !! pid = Some pid_device →
  _context_switch_module pid false s = Ret module s1 →
  _dispatch call (QMsg (ReceiveFuncMSG sender pid op args)) s = Raise UnboundLocalError s1.
Proof.
  intros Hh Hop Hst Hdev Hsw. unfold _dispatch.
  rewrite (bind_Ret_1 _ _ _ _ _ (getitem_Some _hooks _ _ _ Hh)). rewrite Hop.
  rewrite (bind_Ret_1 _ _ _ _ _ (getitem_Some _particle_to_state _ _ _ Hst)).
  rewrite (bind_Ret_1 _ _ _ _ _ (getitem_Some _particle_to_device _ _ _ Hdev)).
  now rewrite (bind_Ret_1 _ _ _ _ _ Hsw).
Qed.

(** The worker of [forward] whose module raises: the exception goes on
    [out_queue], and the worker is over.  Nothing is raised in the
    thread of the event loop, and no result is recorded. *)
Lemma forward_worker_exception fid module x args e s :
  module_forward module x args = inr e →
  forward_worker module_forward fid module x args s
  = Ret tt (set_queues (<[out_queue s := queue_contents (out_queue s) s ++ [QExn e]]>
                          (queues s)) s).
Proof. intros H. unfold forward_worker. now rewrite H. Qed.

Lemma _cleanup_dispatch s :
  _cleanup s = (_ <- _dispatch call (QMsg NodeEvtLoopCleanupMSG) ;; ret tt) s.
Proof. reflexivity. Qed.

End Properties.


(** ** Module objects *)

Lemma elem_of_entries view caches v d p :
  (v, d, p) ∈ Storage.entries view caches
  ↔ v = view ∧ ∃ c, caches !! d = Some c ∧ is_Some (modules c !! p).
Proof.
  unfold Storage.entries. rewrite list_elem_of_bind. split.
  - intros ([d' c] & Hin & Hdc). apply list_elem_of_fmap in Hin as ([p' m] & [= -> -> ->] & Hpm).
    apply elem_of_map_to_list in Hdc, Hpm. simpl in *. eauto.
  - intros (-> & c & Hc & m & Hm). exists (d, c). split.
    + apply list_elem_of_fmap. exists (p, m). split; [done|]. now apply elem_of_map_to_list.
    + now apply elem_of_map_to_list.
Qed.

Lemma write_entries_lookup o m obj view caches d :
  Storage.write_entries o m obj view caches !! d
  = Storage.write_cache o m obj view d <$> caches !! d.
Proof.
  unfold Storage.write_entries. rewrite map_lookup_imap.
  now destruct (caches !! d).
Qed.

Lemma write_cache_lookup o m obj view d c p :
  modules (Storage.write_cache o m obj view d c) !! p
  = (λ m0, if decide (obj (view, d, p) = o) then m else m0) <$> modules c !! p.
Proof.
  unfold Storage.write_cache. simpl. rewrite map_lookup_imap.
  now destruct (modules c !! p).
Qed.

Lemma entries_write o m obj view caches x :
  x ∈ Storage.entries view (Storage.write_entries o m obj view caches)
  ↔ x ∈ Storage.entries view caches.
Proof.
  destruct x as [[v d] p]. rewrite !elem_of_entries. split.
  - intros (-> & c & Hc & Hm). split; [done|].
    rewrite write_entries_lookup in Hc.
    destruct (caches !! d) as [c0|]; [|discriminate]. injection Hc as <-.
    rewrite write_cache_lookup in Hm. exists c0. split; [done|].
    destruct (modules c0 !! p); [eauto|]. now destruct Hm.
  - intros (-> & c & Hc & m0 & Hm). split; [done|].
    exists (Storage.write_cache o m obj view d c). split.
    + now rewrite write_entries_lookup, Hc.
    + rewrite write_cache_lookup, Hm. simpl. eauto.
Qed.

Lemma separated_spec obj s :
  Storage.separated obj s
  ↔ ∀ v w, v ∈ Storage.entries true (view_caches s) →
           w ∈ Storage.entries false (particle_caches s) → obj v ≠ obj w.
Proof.
  unfold Storage.separated. rewrite Forall_forall.
  split; intros H v; [intros w Hv Hw|intros Hv; apply Forall_forall; intros w Hw].
  - specialize (H v Hv). rewrite Forall_forall in H. now apply H.
  - now apply H.
Qed.

Lemma new_object_fresh obj s x :
  x ∈ Storage.all_entries s →
  obj x ≠ Storage.new_object obj s.
Proof.
  intros Hin. unfold Storage.new_object, Storage.objects.
  assert (obj x ≤ max_list (obj <$> Storage.all_entries s)).
  { apply max_list_elem_of_le. apply list_elem_of_fmap. eauto. }
  lia.
Qed.

(** A write to an object changes the contents of the entries that hold
    it, and of no other entry. *)
Lemma write_object_view o m obj s device pid m0 c :
  view_caches s !! device = Some c →
  modules c !! pid = Some m0 →
  view_parameters (VView device pid) (Storage.write_object o m obj s)
  = Some (parameter_values (if decide (obj (true, device, pid) = o) then m else m0)).
Proof.
  intros Hc Hm. unfold view_parameters, Storage.write_object. simpl.
  rewrite write_entries_lookup, Hc. simpl. rewrite map_lookup_imap, Hm. done.
Qed.

Lemma separated_write o m obj s :
  Storage.separated obj (Storage.write_object o m obj s) ↔ Storage.separated obj s.
Proof.
  rewrite !separated_spec. unfold Storage.write_object. simpl.
  split; intros H v w Hv Hw; apply H.
  - now apply entries_write.
  - now apply entries_write.
  - now apply entries_write in Hv.
  - now apply entries_write in Hw.
Qed.

Lemma has_resource_write o m obj s device pid :
  Storage.has_resource (Storage.write_object o m obj s) device pid
  ↔ Storage.has_resource s device pid.
Proof. unfold Storage.has_resource, Storage.write_object. simpl. apply entries_write. Qed.

(** The values of a view whose object no particle entry holds survive
    every mutation of the resources. *)
Lemma mutate_view obj writes s device pid values :
  Storage.separated obj s →
  Forall (λ w, Storage.has_resource s w.1.1 w.1.2) writes →
  view_parameters (VView device pid) s = Some values →
  view_parameters (VView device pid) (Storage.mutate obj writes s) = Some values.
Proof.
  revert s. induction writes as [|[[d p] m] writes IH]; intros s Hsep Hw Hview; [done|].
  apply Forall_cons in Hw as [Hdp Hw]. simpl in Hdp. simpl.
  apply IH.
  - now apply separated_write.
  - eapply Forall_impl; [exact Hw|]. intros w. simpl. now rewrite has_resource_write.
  - unfold view_parameters in Hview.
    destruct (view_caches s !! device) as [c|] eqn:Hc; [|discriminate]. simpl in Hview.
    destruct (modules c !! pid) as [m0|] eqn:Hm; [|discriminate]. simpl in Hview.
    rewrite (write_object_view _ _ _ _ _ _ _ _ Hc Hm).
    rewrite decide_False; [done|].
    apply (proj1 (separated_spec obj s) Hsep).
    + apply elem_of_entries. eauto.
    + exact Hdp.
Qed.

Lemma entries_resources s s' x :
  resources s' = resources s →
  x ∈ Storage.entries false (particle_caches s') →
  x ∈ Storage.entries false (particle_caches s).
Proof.
  intros R. destruct x as [[v d] p]. rewrite !elem_of_entries.
  intros (-> & c' & Hc' & Hm). split; [done|].
  pose proof (f_equal (λ r, r !! d) R) as E. unfold resources in E. simpl in E.
  rewrite !lookup_fmap, Hc' in E. simpl in E.
  destruct (particle_caches s !! d) as [c|]; [|discriminate].
  injection E as E. exists c. now rewrite <- E.
Qed.

Lemma unshared_spec obj s :
  Storage.unshared obj s
  ↔ ∀ x y, x ∈ Storage.all_entries s →
           y ∈ Storage.all_entries s →
           obj x = obj y → x = y.
Proof.
  unfold Storage.unshared. rewrite Forall_forall.
  split; intros H x; [intros y Hx Hy|intros Hx; apply Forall_forall; intros y Hy].
  - specialize (H x Hx). rewrite Forall_forall in H. now apply H.
  - now apply H.
Qed.

Lemma unshared_separated obj s : Storage.unshared obj s → Storage.separated obj s.
Proof.
  rewrite unshared_spec, separated_spec. intros H v w Hv Hw E.
  assert (v = w) as -> by (apply H; [apply elem_of_app; now right|apply elem_of_app; now left|done]).
  destruct w as [[b d] p].
  apply elem_of_entries in Hv as [-> _]. now apply elem_of_entries in Hw as [? _].
Qed.

Lemma unshared_mono obj s s' :
  (∀ x, x ∈ Storage.all_entries s' → x ∈ Storage.all_entries s) →
  Storage.unshared obj s → Storage.unshared obj s'.
Proof.
  rewrite !unshared_spec. intros Hsub H x y Hx Hy. apply H; now apply Hsub.
Qed.

Lemma all_entries_spec s x :
  x ∈ Storage.all_entries s
  ↔ x ∈ Storage.entries false (particle_caches s) ∨ x ∈ Storage.entries true (view_caches s).
Proof. unfold Storage.all_entries. apply elem_of_app. Qed.

Section Objects.

Variable mk_module : Module.

Lemma vcache_create_run device pid s m s' :
  vcache_create mk_module device pid s = Ret m s' →
  m = mk_module
  ∧ ∃ c c', view_caches s !! device = Some c
            ∧ modules c' = <[pid := mk_module]> (modules c)
            ∧ s' = set_view_caches (<[device := c']> (view_caches s)) s.
Proof.
  unfold vcache_create. intros Hrun.
  apply bind_Ret in Hrun as (c & ? & [Hc ->]%getitem_Ret & Hrun).
  unfold Cache.create in Hrun. destruct (modules c !! pid); [discriminate|].
  apply bind_Ret in Hrun as ([] & ? & ->%modify_Ret & [<- <-]%ret_Ret).
  split; [done|]. eexists c, _. split_and!; [done| |done].
  match goal with |- modules (default ?c1 (Cache.load pid ?c1)) = _ =>
    destruct (Cache.load pid c1) as [c2|] eqn:Hl end; simpl; [|done].
  now apply load_Some in Hl as [-> _].
Qed.

Lemma vcache_try_read_run device pid s m s' :
  vcache_try_read device pid s = Ret (Some m) s' →
  ∃ c c', view_caches s !! device = Some c ∧ modules c !! pid = Some m
          ∧ modules c' = modules c
          ∧ s' = set_view_caches (<[device := c']> (view_caches s)) s.
Proof.
  unfold vcache_try_read. intros Hrun.
  apply bind_Ret in Hrun as (c & ? & [Hc ->]%getitem_Ret & Hrun).
  destruct (Cache.try_read c pid false) as [om c'] eqn:Htry.
  apply bind_Ret in Hrun as ([] & ? & ->%modify_Ret & [-> <-]%ret_Ret).
  apply try_read_Some in Htry as (Hm & Hmod & _).
  exists c, c'. done.
Qed.

(** The entries of the view caches after one of them got a cache with
    one more module, or the same modules. *)
Lemma entries_view_insert caches device c c' pid m x :
  caches !! device = Some c →
  modules c' = <[pid := m]> (modules c) →
  x ∈ Storage.entries true (<[device := c']> caches) →
  x = (true, device, pid) ∨ x ∈ Storage.entries true caches.
Proof.
  intros Hc Hmod. destruct x as [[v d] p]. rewrite !elem_of_entries.
  intros (-> & c1 & Hc1 & Hm).
  destruct (decide (d = device)) as [->|Hd].
  - rewrite lookup_insert_eq in Hc1. injection Hc1 as <-. rewrite Hmod in Hm.
    destruct (decide (p = pid)) as [->|Hp]; [now left|right].
    rewrite lookup_insert_ne in Hm by done. eauto.
  - rewrite lookup_insert_ne in Hc1 by done. right. eauto.
Qed.

Lemma entries_view_same caches device c c' x :
  caches !! device = Some c →
  modules c' = modules c →
  x ∈ Storage.entries true (<[device := c']> caches) →
  x ∈ Storage.entries true caches.
Proof.
  intros Hc Hmod. destruct x as [[v d] p]. rewrite !elem_of_entries.
  intros (-> & c1 & Hc1 & Hm). split; [done|].
  destruct (decide (d = device)) as [->|Hd].
  - rewrite lookup_insert_eq in Hc1. injection Hc1 as <-. rewrite Hmod in Hm. eauto.
  - rewrite lookup_insert_ne in Hc1 by done. eauto.
Qed.

(** C2. A same-rank [get(pid_a, pid_b)] returns a view whose parameter
    values are those that the resource of [pid_b] had when [get] was
    called, and the values read through that view stay what they are
    under every later mutation of resources: in-place writes, however
    many, into the module objects that the particle caches hold.  Every
    module is assumed to have the architecture of the module factory,
    and no view entry to hold the object of a particle entry when [get]
    is called; [get] leaves the caches so. *)
Theorem get_view_is_frozen_snapshot
    pid_a pid_b s r obj fut obj' s'
    (Hrank1 : _particle_to_rank s !! pid_a = Some r)
    (Hrank2 : _particle_to_rank s !! pid_b = Some r)
    (Huniform : uniform mk_module s)
    (Hsep : Storage.separated obj s)
    (Hget : Storage.get mk_module pid_a pid_b obj s = Ret (fut, obj') s') :
  ∃ view values,
    _results s' !! future_fid fut = Some view
    ∧ resource_parameters pid_b s = Some values
    ∧ view_parameters view s' = Some values
    ∧ Storage.separated obj' s'
    ∧ ∀ writes,
        Forall (λ w, Storage.has_resource s' w.1.1 w.1.2) writes →
        view_parameters view (Storage.mutate obj' writes s') = Some values.
Proof.
  destruct Huniform as [Hup Huv]. unfold Storage.get in Hget.
  rewrite (bind_Ret_1 _ _ _ _ _ (_create_future_id_run s)) in Hget.
  apply bind_Ret in Hget as ([] & s0 & Hreg & Hget).
  apply _register_future_Ret in Hreg as (futures & Hf & ->).
  apply bind_Ret in Hget as (rc & ? & [Hrc ->]%getitem_Ret & Hget).
  apply bind_Ret in Hget as (rt & ? & [Hrt ->]%getitem_Ret & Hget).
  simpl in Hrc, Hrt. rewrite Hrank1 in Hrc. rewrite Hrank2 in Hrt.
  injection Hrc as <-. injection Hrt as <-.
  rewrite decide_True in Hget by done.
  apply bind_Ret in Hget as (module & s1 & Hsw & Hget).
  apply bind_Ret in Hget as (device_curr & ? & [Hdc ->]%getitem_Ret & Hget).
  apply bind_Ret in Hget as (c & ? & [Hc ->]%getitem_Ret & Hget).
  apply bind_Ret in Hget as ([om obj2] & s2 & Hview & Hget). simpl in Hget.
  destruct om as [module_on_curr|]; [|discriminate].
  apply bind_Ret in Hget as ([] & ? & ->%modify_Ret & Hget).
  apply bind_Ret in Hget as ([] & ? & ->%modify_Ret & [[= <- <-] <-]%ret_Ret).
  (* the resource of [pid_b] at the call *)
  destruct (context_switch_resource _ _ _ _ Hsw) as (Hvalues & device & c0 & _ & Hc0 & Hm0).
  simpl in Hvalues, Hc0.
  assert (length module = length mk_module) as Hlen.
  { exact (Hup _ _ Hc0 _ _ Hm0). }
  pose proof (f_equal view_caches (context_switch_frame _ _ _ _ _ Hsw)) as Ev. simpl in Ev.
  pose proof (keeps_resources_context_switch _ _ _ _ _ Hsw) as R.
  (* the caches are separated after the context switch *)
  assert (Storage.separated obj s1) as Hsep1.
  { apply separated_spec. intros v w Hv Hw.
    apply (proj1 (separated_spec obj s) Hsep).
    - now rewrite <- Ev.
    - now apply (entries_resources _ _ _ R) in Hw. }
  (* the entry of the view cache that receives the copy *)
  assert (∃ c2 m2, view_caches s2 !! device_curr = Some c2
                   ∧ modules c2 !! pid_b = Some m2
                   ∧ length module_on_curr = length mk_module
                   ∧ Storage.separated obj2 s2) as (c2 & m2 & Hc2 & Hm2 & Hlen' & Hsep2).
  { destruct (Cache.contains c pid_b) eqn:Hcon; simpl in Hview.
    - apply bind_Ret in Hview as (om & ? & Hread & [[= -> <-] <-]%ret_Ret).
      apply vcache_try_read_run in Hread as (c1 & c' & Hc1 & Hm1 & Hmod & ->).
      exists c', module_on_curr. simpl. rewrite lookup_insert_eq, Hmod.
      split_and!; [done|done| |].
      + rewrite Ev in Hc1. exact (Huv _ _ Hc1 _ _ Hm1).
      + apply separated_spec. intros v w Hv Hw. simpl in Hv, Hw.
        apply (proj1 (separated_spec obj s1) Hsep1); [|done].
        exact (entries_view_same _ _ _ _ _ Hc1 Hmod Hv).
    - apply bind_Ret in Hview as ([m o2] & ? & Hcr & [[= -> <-] <-]%ret_Ret).
      unfold Storage.vcache_create in Hcr.
      apply bind_Ret in Hcr as (? & ? & [-> ->]%get_state_Ret & Hcr).
      apply bind_Ret in Hcr as (m' & s2' & Hcr & [[= <- <-] <-]%ret_Ret).
      apply vcache_create_run in Hcr as (-> & c1 & c' & Hc1 & Hmod & ->).
      exists c', mk_module. simpl. rewrite lookup_insert_eq, Hmod, lookup_insert_eq.
      split_and!; [done|done|done|].
      apply separated_spec. intros v w Hv Hw. simpl in Hv, Hw.
      assert (w ≠ (true, device_curr, pid_b)) as Hne.
      { destruct w as [[b d] p]. apply elem_of_entries in Hw as [-> _]. congruence. }
      rewrite (fn_lookup_insert_ne _ _ w) by done.
      destruct (decide (v = (true, device_curr, pid_b))) as [->|Hv'].
      + rewrite fn_lookup_insert. intros E. symmetry in E. revert E.
        apply new_object_fresh. apply elem_of_app. now left.
      + rewrite fn_lookup_insert_ne by done.
        apply (proj1 (separated_spec obj s1) Hsep1); [|done].
        destruct (entries_view_insert _ _ _ _ _ _ _ Hc1 Hmod Hv) as [->|Hv2]; [done|exact Hv2]. }
  exists (VView device_curr pid_b), (parameter_values module).
  set (s3 := Storage.write_object _ _ _ s2).
  assert (view_parameters (VView device_curr pid_b)
            (set_results (<[_future_id s := VView device_curr pid_b]> (_results s3)) s3)
          = Some (parameter_values module)) as Hview_values.
  { change (view_parameters (VView device_curr pid_b) s3 = Some (parameter_values module)).
    unfold s3. rewrite (write_object_view _ _ _ _ _ _ _ _ Hc2 Hm2).
    rewrite decide_True by done.
    rewrite copy_parameters_values by congruence. done. }
  assert (Storage.separated obj2
            (set_results (<[_future_id s := VView device_curr pid_b]> (_results s3)) s3))
    as Hsep3.
  { change (Storage.separated obj2 s3). now apply separated_write. }
  split_and!; simpl; [apply lookup_insert_eq|exact Hvalues|exact Hview_values|exact Hsep3|].
  intros writes Hwrites. now apply mutate_view.
Qed.

(** A write to an object that a single view entry holds is the update of
    that entry. *)
Lemma write_object_unshared obj s device pid c m :
  Storage.unshared obj s →
  view_caches s !! device = Some c →
  is_Some (modules c !! pid) →
  Storage.write_object (obj (true, device, pid)) m obj s
  = set_view_caches (<[device := Cache.store c pid m]> (view_caches s)) s.
Proof.
  intros Hun Hc Hm. rewrite unshared_spec in Hun.
  assert ((true, device, pid) ∈ Storage.all_entries s) as Hslot.
  { apply elem_of_app. right. apply elem_of_entries. eauto. }
  assert (∀ view d c0,
            (∀ p, is_Some (modules c0 !! p) →
                  (view, d, p) ∈ Storage.all_entries s) →
            (view, d) ≠ (true, device) →
            Storage.write_cache (obj (true, device, pid)) m obj view d c0 = c0) as Hsame.
  { intros view d c0 Hin Hne. destruct c0 as [sz ms res pins].
    unfold Storage.write_cache. simpl. f_equal. apply map_eq. intros p.
    rewrite map_lookup_imap. destruct (ms !! p) as [m0|] eqn:Hp; [|done]. simpl.
    rewrite decide_False; [done|]. intros E.
    apply Hun in E; [congruence| |exact Hslot].
    apply Hin. simpl. eauto. }
  unfold Storage.write_object.
  replace (Storage.write_entries (obj (true, device, pid)) m obj false (particle_caches s))
    with (particle_caches s).
  2:{ apply map_eq. intros d. rewrite write_entries_lookup.
      destruct (particle_caches s !! d) as [c0|] eqn:Hd; [|done]. simpl. f_equal.
      symmetry. apply (Hsame false); [|congruence].
      intros p Hp. apply elem_of_app. left. apply elem_of_entries. eauto. }
  replace (Storage.write_entries (obj (true, device, pid)) m obj true (view_caches s))
    with (<[device := Cache.store c pid m]> (view_caches s)).
  2:{ apply map_eq. intros d. rewrite write_entries_lookup.
      destruct (decide (d = device)) as [->|Hd].
      - rewrite lookup_insert_eq, Hc. simpl. f_equal.
        destruct c as [sz ms res pins]. unfold Storage.write_cache, Cache.store. simpl.
        f_equal. apply map_eq. intros p. rewrite map_lookup_imap.
        destruct (decide (p = pid)) as [->|Hp].
        + rewrite lookup_insert_eq. simpl in Hm. destruct Hm as [m0 ->]. simpl.
          now rewrite decide_True.
        + rewrite lookup_insert_ne by done.
          destruct (ms !! p) as [m0|] eqn:Hp0; [|done]. simpl.
          rewrite decide_False; [done|]. intros E.
          apply Hun in E; [congruence| |exact Hslot].
          apply elem_of_app. right. apply elem_of_entries. split; [done|].
          eexists. split; [exact Hc|]. simpl. eauto.
      - rewrite lookup_insert_ne by done.
        destruct (view_caches s !! d) as [c0|] eqn:Hd0; [|done]. simpl. f_equal.
        symmetry. apply (Hsame true); [|congruence].
        intros p Hp. apply elem_of_app. right. apply elem_of_entries. eauto. }
  now destruct s.
Qed.

(** A new view entry with a new object shares it with no entry. *)
Lemma unshared_create obj s device pid c c' :
  Storage.unshared obj s →
  view_caches s !! device = Some c →
  modules c' = <[pid := mk_module]> (modules c) →
  Storage.unshared (<[(true, device, pid) := Storage.new_object obj s]> obj)
                   (set_view_caches (<[device := c']> (view_caches s)) s).
Proof.
  intros Hun Hc Hmod. rewrite unshared_spec in Hun. apply unshared_spec.
  set (s2 := set_view_caches _ s).
  assert (∀ x, x ∈ Storage.all_entries s2 →
               x ≠ (true, device, pid) → x ∈ Storage.all_entries s) as Hold.
  { intros x Hx Hne. apply all_entries_spec in Hx as [Hx|Hx]; apply all_entries_spec.
    - now left.
    - right. simpl in Hx.
      destruct (entries_view_insert _ _ _ _ _ _ _ Hc Hmod Hx) as [->|Hx2]; done. }
  intros x y Hx Hy.
  destruct (decide (x = (true, device, pid))) as [->|Hx'];
    destruct (decide (y = (true, device, pid))) as [->|Hy']; [done| | |].
  - rewrite fn_lookup_insert, fn_lookup_insert_ne by done. intros E. exfalso.
    symmetry in E. revert E. apply new_object_fresh. now apply Hold.
  - rewrite fn_lookup_insert, fn_lookup_insert_ne by done. intros E. exfalso.
    revert E. apply new_object_fresh. now apply Hold.
  - rewrite !fn_lookup_insert_ne by done. apply Hun; now apply Hold.
Qed.

Lemma unshared_store obj s device pid c m :
  Storage.unshared obj s →
  view_caches s !! device = Some c →
  is_Some (modules c !! pid) →
  Storage.unshared obj (set_view_caches (<[device := Cache.store c pid m]> (view_caches s)) s).
Proof.
  intros Hun Hc Hm. revert Hun. apply unshared_mono. intros x Hx.
  apply all_entries_spec in Hx as [Hx|Hx]; apply all_entries_spec; [now left|right].
  simpl in Hx.
  destruct (entries_view_insert _ _ _ (Cache.store c pid m) _ _ _ Hc eq_refl Hx) as [->|Hx2];
    [|done].
  apply elem_of_entries. eauto.
Qed.

Lemma vcache_store_run device pid m s c :
  view_caches s !! device = Some c →
  vcache_store device pid m s
  = Ret tt (set_view_caches (<[device := Cache.store c pid m]> (view_caches s)) s).
Proof.
  intros Hc. unfold vcache_store.
  now rewrite (bind_Ret_1 _ _ _ _ _ (getitem_Some view_caches _ _ _ Hc)).
Qed.

(** As long as no two cache entries hold one module object, [get] on
    objects is [get] on contents. *)
Lemma get_without_aliases pid_curr pid obj s fut obj' s' :
  Storage.unshared obj s →
  Storage.get mk_module pid_curr pid obj s = Ret (fut, obj') s' →
  get mk_module pid_curr pid s = Ret fut s' ∧ Storage.unshared obj' s'.
Proof.
  intros Hun Hget. unfold Storage.get in Hget. unfold get.
  rewrite (bind_Ret_1 _ _ _ _ _ (_create_future_id_run s)) in Hget.
  rewrite (bind_Ret_1 _ _ _ _ _ (_create_future_id_run s)).
  apply bind_Ret in Hget as ([] & s0 & Hreg & Hget).
  rewrite (bind_Ret_1 _ _ _ _ _ Hreg).
  apply _register_future_Ret in Hreg as (futures & Hf & ->).
  apply bind_Ret in Hget as (rc & ? & Hrc & Hget).
  rewrite (bind_Ret_1 _ _ _ _ _ Hrc). apply getitem_Ret in Hrc as [Hrc ->].
  apply bind_Ret in Hget as (rt & ? & Hrt & Hget).
  rewrite (bind_Ret_1 _ _ _ _ _ Hrt). apply getitem_Ret in Hrt as [Hrt ->].
  set (s0 := with_future _ _ _ _) in *.
  assert (Storage.unshared obj s0) as Hun0 by exact Hun.
  destruct (decide (rt = rc)) as [->|Hne].
  - apply bind_Ret in Hget as (module & s1 & Hsw & Hget).
    rewrite (bind_Ret_1 _ _ _ _ _ Hsw).
    apply bind_Ret in Hget as (device_curr & ? & Hdc & Hget).
    rewrite (bind_Ret_1 _ _ _ _ _ Hdc). apply getitem_Ret in Hdc as [Hdc ->].
    apply bind_Ret in Hget as (c & ? & Hc & Hget).
    rewrite (bind_Ret_1 _ _ _ _ _ Hc). apply getitem_Ret in Hc as [Hc ->].
    apply bind_Ret in Hget as ([om obj2] & s2 & Hview & Hget). simpl in Hget.
    destruct om as [module_on_curr|]; [|discriminate].
    apply bind_Ret in Hget as ([] & ? & ->%modify_Ret & Hget).
    apply bind_Ret in Hget as ([] & ? & ->%modify_Ret & [[= <- <-] <-]%ret_Ret).
    pose proof (f_equal view_caches (context_switch_frame _ _ _ _ _ Hsw)) as Ev. simpl in Ev.
    pose proof (keeps_resources_context_switch _ _ _ _ _ Hsw) as R.
    assert (Storage.unshared obj s1) as Hun1.
    { revert Hun0. apply unshared_mono. intros x Hx.
      apply all_entries_spec in Hx as [Hx|Hx]; apply all_entries_spec.
      - left. now apply (entries_resources _ _ _ R) in Hx.
      - right. rewrite Ev in Hx. exact Hx. }
    assert (∃ c2, view_caches s2 !! device_curr = Some c2
                  ∧ is_Some (modules c2 !! pid)
                  ∧ Storage.unshared obj2 s2
                  ∧ (if negb (Cache.contains c pid)
                     then m <- vcache_create mk_module device_curr pid ;; ret (Some m)
                     else vcache_try_read device_curr pid) s1
                    = Ret (Some module_on_curr) s2) as (c2 & Hc2 & Hm2 & Hun2 & Hview').
    { destruct (Cache.contains c pid) eqn:Hcon; simpl in Hview |- *.
      - apply bind_Ret in Hview as (om & ? & Hread & [[= -> <-] <-]%ret_Ret).
        pose proof Hread as Hread'.
        apply vcache_try_read_run in Hread as (c1 & c' & Hc1 & Hm1 & Hmod & ->).
        exists c'. simpl. rewrite lookup_insert_eq, Hmod.
        split_and!; [done|eauto| |exact Hread'].
        revert Hun1. apply unshared_mono. intros x Hx.
        apply all_entries_spec in Hx as [Hx|Hx]; apply all_entries_spec; [now left|right].
        exact (entries_view_same _ _ _ _ _ Hc1 Hmod Hx).
      - apply bind_Ret in Hview as ([m o2] & ? & Hcr & [[= -> <-] <-]%ret_Ret).
        unfold Storage.vcache_create in Hcr.
        apply bind_Ret in Hcr as (? & ? & [-> ->]%get_state_Ret & Hcr).
        apply bind_Ret in Hcr as (m' & s2' & Hcr & [[= <- <-] <-]%ret_Ret).
        rewrite (bind_Ret_1 _ _ _ _ _ Hcr).
        apply vcache_create_run in Hcr as (-> & c1 & c' & Hc1 & Hmod & ->).
        exists c'. simpl. rewrite lookup_insert_eq, Hmod, lookup_insert_eq.
        split_and!; [done|eauto| |done].
        now apply (unshared_create _ _ _ _ c1). }
    rewrite (bind_Ret_1 _ _ _ _ _ Hview').
    rewrite (write_object_unshared _ _ _ _ _ _ Hun2 Hc2 Hm2).
    split.
    + rewrite (bind_Ret_1 _ _ _ _ _ (vcache_store_run _ _ _ _ _ Hc2)).
      reflexivity.
    + apply (unshared_store _ _ _ _ _ _ Hun2 Hc2 Hm2).
  - apply bind_Ret in Hget as (q & ? & Hq & Hget).
    rewrite (bind_Ret_1 _ _ _ _ _ Hq). apply getitem_Ret in Hq as [Hq ->].
    apply bind_Ret in Hget as ([] & s1 & Hput & [[= <- <-] <-]%ret_Ret).
    rewrite (bind_Ret_1 _ _ _ _ _ Hput). split; [done|].
    unfold queue_put in Hput. apply modify_Ret in Hput as ->. exact Hun0.
Qed.

End Objects.



(** * Instances *)



(** C4, an instance. *)
Lemma send_restores_caller_resource_witness :
  ∃ s_handled device c,
    _context_switch_module 0 false s_handled = Ret (particle_module ex_particle) ex_sent
    ∧ _particle_to_device ex_sent !! 0 = Some device
    ∧ particle_caches ex_sent !! device = Some c
    ∧ 0 ∈ resident c
    ∧ modules c !! 0 = Some (particle_module ex_particle).
Proof.
  apply (send_restores_caller_resource ex_call
           ex_particle 0 1 "ECHO" [VTensor tensor_on_cpu] (ex_state []) 0 ex_future).
  - vm_compute; reflexivity.
  - vm_compute; reflexivity.
  - vm_compute; reflexivity.
Defined.


(** C9, an instance: particle 0 sends to particle 2, which lives on rank 1. *)
Lemma send_cross_rank_witness :
  ∃ s', send ex_call ex_particle 0 2 "ECHO" [VTensor tensor_on_cpu] (ex_state [])
        = Ret (mkPFuture 0 2 0 None, ex_particle) s'
        ∧ queue_contents 5 s'
          = [QMsg (ReceiveFuncMSG (0, 0) 2 "ECHO" [VTensor (mkTensor [1%Z; 2%Z] CPU false)])]
        ∧ _results s' = ∅.
Proof.
  destruct (send_cross_rank ex_call ex_particle 0 2 "ECHO" [VTensor tensor_on_cpu]
              (ex_state []) 0 1 ∅ 5) as (_ & Hsend & Hres).
  - vm_compute; reflexivity.
  - vm_compute; reflexivity.
  - discriminate.
  - vm_compute; reflexivity.
  - vm_compute; reflexivity.
  - eexists. split; [exact Hsend|]. split; [vm_compute; reflexivity|exact Hres].
Defined.

(** C2, an instance: particle 0 gets a view of particle 1. *)
Lemma get_view_is_frozen_snapshot_witness :
  ∃ view values,
    _results ex_viewed !! 0 = Some view
    ∧ resource_parameters 1 (ex_state []) = Some values
    ∧ view_parameters view ex_viewed = Some values
    ∧ Storage.separated ex_obj' ex_viewed
    ∧ ∀ writes,
        Forall (λ w, Storage.has_resource ex_viewed w.1.1 w.1.2) writes →
        view_parameters view (Storage.mutate ex_obj' writes ex_viewed) = Some values.
Proof.
  apply (get_view_is_frozen_snapshot ex_mk_module 0 1 (ex_state []) 0 ex_obj
           (mkPFuture 0 1 0 None) ex_obj' ex_viewed).
  - vm_compute; reflexivity.
  - vm_compute; reflexivity.
  - apply (bool_decide_unpack _). vm_compute. exact I.
  - apply (bool_decide_unpack _). vm_compute. exact I.
  - vm_compute; reflexivity.
Defined.

(** A write into the resource of particle 1 changes the resource, and
    not the view that was returned before. *)
Lemma mutation_changes_resource_not_view :
  let s := Storage.mutate ex_obj' [(0, 1, ex_module 70)] ex_viewed in
  resource_parameters 1 ex_viewed = Some [[20; 21]%Z]
  ∧ resource_parameters 1 s = Some [[70; 71]%Z]
  ∧ view_parameters (VView 0 1) s = Some [[20; 21]%Z].
Proof. vm_compute. done. Qed.

(** The separation is what keeps the view: a view entry that holds the
    module object of the resource follows every write to it. *)
Lemma aliased_view_follows_resource :
  let s' := state_of (Storage.get ex_mk_module 0 1 ex_aliased ex_viewed) in
  ¬ Storage.separated ex_aliased ex_viewed
  ∧ view_parameters (VView 0 1) s' = Some [[20; 21]%Z]
  ∧ Storage.has_resource s' 0 1
  ∧ view_parameters (VView 0 1) (Storage.mutate ex_aliased [(0, 1, ex_module 70)] s')
    = Some [[70; 71]%Z].
Proof.
  split_and!.
  - apply (bool_decide_unpack _). vm_compute. exact I.
  - vm_compute. reflexivity.
  - apply (bool_decide_unpack _). vm_compute. exact I.
  - vm_compute. reflexivity.
Qed.

(** C3, an instance: a request arrives ahead of the acknowledgment of the
    awaited [get]. *)
Lemma wait_buffers_requests_and_replays_in_order_witness :
  ∃ s1, ∀ fuel, 1 < fuel →
    _wait ex_call ex_mk_module fuel 0 (ex_waiting [ex_request; ex_get_ack])
    = (replay ex_call [ex_request] ;; ret (VView 0 1)) s1.
Proof.
  exists (state_of ((_dispatch_receive_get_ack ex_mk_module 0 1 [mkTensor [5%Z; 6%Z] CPU false] [None] ;;
                     check_results 0) (taken 2 (ex_waiting [ex_request; ex_get_ack])))).
  apply (wait_buffers_requests_and_replays_in_order ex_call ex_mk_module
           (ex_waiting [ex_request; ex_get_ack]) 0 [ex_request] 0 1
           [mkTensor [5%Z; 6%Z] CPU false] [None] []).
  - vm_compute; reflexivity.
  - repeat constructor.
  - vm_compute; reflexivity.
  - vm_compute; reflexivity.
Defined.

(** C3, where the claim fails: a function acknowledgment that arrives
    during a wait is not buffered.  The buffer stays empty, so the message
    is never replayed. *)
Lemma function_ack_not_buffered :
  is_invocation_request ex_func_ack = false
  ∧ wait_turn ex_call ex_mk_module 0 (false, VNone) [] (ex_waiting [ex_func_ack])
    = Ret ((false, VNone), []) (take_message (ex_waiting [ex_func_ack])).
Proof. split; vm_compute; reflexivity. Qed.

(** C6, an instance. *)
Lemma unknown_operation_dropped_by_dispatch_witness :
  _dispatch ex_call ex_unknown (ex_state []) = Ret true (ex_state []).
Proof.
  apply (unknown_operation_dropped_by_dispatch ex_call (ex_state []) 1
           {["ECHO"%string := HFn 0; "FAIL"%string := HFn 1]} "NOPE" (7, 0) [] ex_unknown).
  - vm_compute; reflexivity.
  - vm_compute; reflexivity.
  - right. reflexivity.
Defined.

(** C6, where the claim fails: a same-rank [send] of an operation that the
    handler table of the target does not have raises [KeyError]. *)
Lemma send_unknown_operation_raises :
  _particle_to_rank (ex_state []) !! 0 = _particle_to_rank (ex_state []) !! 1
  ∧ (_hooks (ex_state []) !! 1) ≫= (λ hooks, hooks !! "NOPE"%string) = None
  ∧ ∃ s', send ex_call ex_particle 0 1 "NOPE" [] (ex_state []) = Raise KeyError s'.
Proof. split_and!; [vm_compute; reflexivity..|]. eexists. vm_compute. reflexivity. Qed.

(** C8, an instance. *)
Lemma dispatch_invocation_request_witness :
  ∃ s', _dispatch ex_call ex_request (ex_state []) = Ret true s'.
Proof.
  destruct (dispatch_invocation_request ex_call (ex_state []) (7, 0) 1 "ECHO"
              [VTensor tensor_on_cpu]
              {["ECHO"%string := HFn 0; "FAIL"%string := HFn 1]} (HFn 0) (VInt 3) 0
              (ex_module 20) (state_of (_context_switch_module 1 false (ex_state []))))
    as [_ Hd].
  - vm_compute; reflexivity.
  - vm_compute; reflexivity.
  - vm_compute; reflexivity.
  - vm_compute; reflexivity.
  - vm_compute; reflexivity.
  - eexists. unfold ex_request. rewrite Hd. vm_compute. reflexivity.
Defined.

(** C8, where the claim fails: the handler of a [ReceiveFuncPDMSG] gets the
    arguments of the message as they are.  The handler [ECHO] returns its
    first argument, and the acknowledgment carries a tensor that is still
    on the CPU and attached, not its transfer to device 0. *)
Lemma dispatch_passes_arguments_unchanged :
  ∃ s', _dispatch ex_call ex_request (ex_state []) = Ret true s'
        ∧ queue_contents (out_queue s') s'
          = [QMsg (ReceiveFuncAckPDMSG (7, 0) (VTensor tensor_on_cpu))]
        ∧ detach_to_device 0 (VTensor tensor_on_cpu) ≠ VTensor tensor_on_cpu
        ∧ ¬ device_resident 0 (VTensor tensor_on_cpu).
Proof.
  eexists. split_and!.
  - vm_compute. reflexivity.
  - vm_compute. reflexivity.
  - discriminate.
  - intros [H _]. discriminate H.
Qed.

(** C7, where the code fails.  The module of particle 0 raises in
    [forward].  The exception is put on [out_queue], but [forward] returns
    its future, no result is ever recorded for it, and the event loop is
    not torn down: it goes on to dispatch the registration that arrives
    next and acknowledges it, and stops only at the cleanup message. *)
Theorem forward_exception_leaves_loop_running :
  let inbound := [QMsg (ReceiveRegisterPDMSG 0 "PING" 0 VNone); QMsg NodeEvtLoopCleanupMSG] in
  ∃ s1 s2,
    forward ex_forward 0 (VInt 1) [] (ex_state inbound) = Ret (mkPFuture 0 0 0 (Some 0)) s1
    ∧ queue_contents (out_queue s1) s1 = [QExn (UserError 7)]
    ∧ _results s1 !! 0 = None
    ∧ _start_event_loop ex_call 2 s1 = Ret tt s2
    ∧ queue_contents (out_queue s2) s2 = [QExn (UserError 7); QMsg ReceiveRegisterAckPDMSG]
    ∧ (_hooks s2 !! 0) ≫= (λ hooks, hooks !! "PING"%string) = Some (HFn 0).
Proof.
  simpl. eexists _, _. split_and!; vm_compute; reflexivity.
Qed.

(** * Further properties of the event loop *)

Section ContextSwitch.

Lemma keeps_pthread_bind {A B} (m : M A) (k : A → M B) :
  keeps_pthread m → (∀ a, keeps_pthread (k a)) → keeps_pthread (bind m k).
Proof.
  intros Hm Hk s b s' (a & s1 & H1 & H2)%bind_Ret.
  rewrite (Hk _ _ _ _ H2). eapply Hm, H1.
Qed.

Lemma keeps_pthread_getitem `{Countable K} {V} (d : NEL → gmap K V) k :
  keeps_pthread (getitem d k).
Proof. intros s a s' [_ ->]%getitem_Ret. done. Qed.

Lemma keeps_pthread_try_read device pid pin : keeps_pthread (pcache_try_read device pid pin).
Proof.
  intros s a s' Hrun. unfold pcache_try_read in Hrun.
  apply bind_Ret in Hrun as (c & ? & [Hc ->]%getitem_Ret & Hrun).
  destruct (Cache.try_read c pid pin) as [om c']. inv_run. subst. done.
Qed.

Lemma keeps_pthread_release device pid t : keeps_pthread (pcache_release device pid t).
Proof.
  intros s a s' Hrun. unfold pcache_release in Hrun.
  apply bind_Ret in Hrun as (c & ? & [Hc ->]%getitem_Ret & ->%modify_Ret). done.
Qed.

Lemma pthread_lookup_remove device l :
  pthread_lookup device (pthread_remove device l) = None.
Proof.
  induction l as [|e l IH]; [done|]. unfold pthread_remove in *.
  rewrite filter_cons. destruct (decide (e.1 ≠ device)) as [Hne|Heq]; [|exact IH].
  simpl. rewrite decide_False by done. exact IH.
Qed.

Lemma pthread_lookup_drop device k l :
  pthread_lookup device l = None → pthread_lookup device (drop k l) = None.
Proof.
  revert l. induction k as [|k IH]; intros [|e l]; simpl; try done.
  destruct (decide (e.1 = device)); [discriminate|]. apply IH.
Qed.

(** The reload loop only pops workers: what is left of
    [_device_to_pthread] is a tail of what the loop started with. *)
Lemma reload_pthread pthreads pid_device pid pin module s m s' :
  _device_to_pthread s = pthreads →
  reload_module pthreads pid_device pid pin module s = Ret m s' →
  ∃ k, _device_to_pthread s' = drop k pthreads.
Proof.
  revert module s. induction pthreads as [|[d [ap at_]] rest IH]; intros [m0|] s Hs; simpl.
  - intros [= <- <-]. exists 0. now rewrite Hs.
  - discriminate.
  - intros [= <- <-]. exists 0. now rewrite Hs.
  - intros Hrun.
    apply bind_Ret in Hrun as ([] & ? & ->%modify_Ret & Hrun).
    apply bind_Ret in Hrun as (apd & ? & [_ ->]%getitem_Ret & Hrun).
    apply bind_Ret in Hrun as ([] & s1 & Hrel & Hrun).
    apply bind_Ret in Hrun as (module' & s2 & Hread & Hrun).
    apply keeps_pthread_release in Hrel. apply keeps_pthread_try_read in Hread.
    simpl in Hrel. destruct (IH module' s2) as (k & Hk); [congruence|exact Hrun|].
    exists (S k). exact Hk.
Qed.

(** X1. A context switch returns or raises; it never waits on a queue.
    Either way it leaves every attribute of the event loop other than
    [particle_caches] and [_device_to_pthread] as it was: futures,
    results, queues, handler tables and the particle maps. *)
Theorem context_switch_touches_only_caches pid pin s :
  (∃ m s', _context_switch_module pid pin s = Ret m s'
           ∧ outside_caches s' = outside_caches s)
  ∨ (∃ e s', _context_switch_module pid pin s = Raise e s'
             ∧ outside_caches s' = outside_caches s).
Proof.
  pose proof (cache_only_context_switch pid pin s) as F.
  destruct (_context_switch_module pid pin s) as [m s'|e s'| |]; try done; eauto.
Qed.

(** X2. After a context switch for a particle has returned, no worker is
    recorded for the device of that particle any more, and the record of
    workers has only lost entries: it is a tail of the record without the
    entry of that device. *)
Theorem context_switch_retires_worker pid pin s m s'
    (Hswitch : _context_switch_module pid pin s = Ret m s') :
  ∃ device k,
    _particle_to_device s !! pid = Some device
    ∧ pthread_lookup device (_device_to_pthread s') = None
    ∧ _device_to_pthread s' = drop k (pthread_remove device (_device_to_pthread s)).
Proof.
  unfold _context_switch_module in Hswitch.
  apply bind_Ret in Hswitch as (device & ? & [Hd ->]%getitem_Ret & Hrun).
  apply bind_Ret in Hrun as ([] & s1 & Hwait & Hrun).
  apply bind_Ret in Hrun as (module & s2 & Hread & Hrun).
  apply bind_Ret in Hrun as (s3 & ? & [-> ->]%get_state_Ret & Hrun).
  apply keeps_pthread_try_read in Hread.
  assert (_device_to_pthread s1 = pthread_remove device (_device_to_pthread s)) as H1.
  { unfold _wait_particle_thread in Hwait.
    apply bind_Ret in Hwait as (d & ? & [Hd' ->]%getitem_Ret & Hwait).
    assert (d = device) as -> by congruence.
    apply bind_Ret in Hwait as (s0 & ? & [-> ->]%get_state_Ret & Hwait).
    destruct (pthread_lookup device (_device_to_pthread s)) as [[ap at_]|] eqn:Hl.
    - apply bind_Ret in Hwait as ([] & ? & ->%modify_Ret & Hwait).
      apply bind_Ret in Hwait as (apd & ? & [_ ->]%getitem_Ret & Hrel).
      apply keeps_pthread_release in Hrel. exact Hrel.
    - apply ret_Ret in Hwait as [_ <-]. clear -Hl.
      induction (_device_to_pthread s) as [|e l IH]; [done|].
      simpl in Hl. unfold pthread_remove in *. rewrite filter_cons.
      destruct (decide (e.1 = device)) as [|Hne]; [discriminate|].
      rewrite decide_True by done. now rewrite <- IH. }
  destruct (reload_pthread _ _ _ _ _ _ _ _ eq_refl Hrun) as (k & Hk).
  exists device, k. rewrite Hk, Hread, H1. split_and!; [done| |done].
  apply pthread_lookup_drop, pthread_lookup_remove.
Qed.

(** X3. A context switch for a particle whose resource cannot be read,
    at a moment when no worker is recorded, does not loop: popping from
    the empty [_device_to_pthread] raises [KeyError]. *)
Theorem context_switch_nothing_to_release pid pin s device c c'
    (Hdevice : _particle_to_device s !! pid = Some device)
    (Hidle : _device_to_pthread s = [])
    (Hcache : particle_caches s !! device = Some c)
    (Habsent : Cache.try_read c pid pin = (None, c')) :
  _context_switch_module pid pin s
  = Raise KeyError (set_particle_caches (<[device := c']> (particle_caches s)) s).
Proof.
  unfold _context_switch_module.
  rewrite (bind_Ret_1 _ _ _ _ _ (getitem_Some _particle_to_device _ _ _ Hdevice)).
  rewrite (bind_Ret_1 _ _ _ tt s).
  - rewrite (bind_Ret_1 _ _ _ None
               (set_particle_caches (<[device := c']> (particle_caches s)) s)).
    + unfold bind, get_state. simpl. now rewrite Hidle.
    + unfold pcache_try_read.
      rewrite (bind_Ret_1 _ _ _ _ _ (getitem_Some particle_caches _ _ _ Hcache)).
      now rewrite Habsent.
  - unfold _wait_particle_thread.
    rewrite (bind_Ret_1 _ _ _ _ _ (getitem_Some _particle_to_device _ _ _ Hdevice)).
    unfold bind, get_state. now rewrite Hidle.
Qed.

End ContextSwitch.

(** X2, an instance: particle 0 is switched in while particle 1 has a worker
    on the same device. *)
Lemma context_switch_retires_worker_witness :
  ∃ device k,
    _particle_to_device ex_busy !! 0 = Some device
    ∧ pthread_lookup device
        (_device_to_pthread (state_of (_context_switch_module 0 false ex_busy))) = None
    ∧ _device_to_pthread (state_of (_context_switch_module 0 false ex_busy))
      = drop k (pthread_remove device (_device_to_pthread ex_busy)).
Proof.
  apply (context_switch_retires_worker 0 false ex_busy (ex_module 10)).
  vm_compute; reflexivity.
Defined.

(** X3, an instance. *)
Lemma context_switch_nothing_to_release_witness :
  ∃ s', _context_switch_module 3 false ex_stranger = Raise KeyError s'.
Proof.
  eexists.
  apply (context_switch_nothing_to_release 3 false ex_stranger 0
           (mkCache 2 {[0 := ex_module 10; 1 := ex_module 20]} [0; 1] ∅)).
  - vm_compute; reflexivity.
  - vm_compute; reflexivity.
  - vm_compute; reflexivity.
  - vm_compute; reflexivity.
Defined.

(** X4. Registering a fresh future for a particle, recording its result and
    consuming it once brings the event loop back to the state before the
    registration: the result is returned, and the results map, the
    future-to-particle map and the pending set of the particle are what
    they were. *)
Theorem register_then_consume_restores pid fid futures y s
    (Hpending : _particle_to_futures s !! pid = Some futures)
    (Hfresh : _future_to_particle s !! fid = None)
    (Hnew : fid ∉ futures)
    (Hnone : _results s !! fid = None) :
  (_register_future pid fid ;;
   modify (λ s, set_results (<[fid := y]> (_results s)) s) ;;
   check_results fid) s = Ret (true, y) s.
Proof.
  rewrite (bind_Ret_1 _ _ _ _ _ (_register_future_run _ _ _ _ Hpending)).
  unfold bind at 1, modify.
  erewrite check_results_ready; cycle 1.
  - simpl. apply lookup_insert_eq.
  - simpl. apply lookup_insert_eq.
  - simpl. apply lookup_insert_eq.
  - set_solver.
  - f_equal. unfold consumed, with_future. destruct s. simpl in *.
    rewrite !delete_insert_eq, insert_insert_eq.
    rewrite (delete_id _ _ Hnone), (delete_id _ _ Hfresh).
    replace ((futures ∪ {[fid]}) ∖ {[fid]}) with futures by set_solver.
    now rewrite (insert_id _ _ _ Hpending).
Qed.

(** Consuming one future leaves the other recorded results collectable. *)
Lemma ready_consumed fid pid futures fid' y' s :
  _future_to_particle s !! fid = Some pid →
  _particle_to_futures s !! pid = Some futures →
  fid ≠ fid' →
  ready fid' y' s → ready fid' y' (consumed fid pid futures s).
Proof.
  intros Hp Hf Hne (Hy & pid' & Hp' & futures' & Hf' & Hin). split; simpl.
  - now rewrite lookup_delete_ne.
  - exists pid'. split; simpl; [now rewrite lookup_delete_ne|].
    destruct (decide (pid = pid')) as [<-|Hpid].
    + exists (futures ∖ {[fid]}). rewrite lookup_insert_eq.
      split; [done|]. assert (futures' = futures) as -> by congruence. set_solver.
    + exists futures'. now rewrite lookup_insert_ne.
Qed.

Section Futures.

Variable call : Callable → Particle → list PyVal → M PyVal.
Variable mk_module : Module.

(** X5. A result recorded under a future id that was never registered
    cannot be collected: the wait removes the result first and then raises
    [KeyError] from the future-to-particle map, so the result is lost. *)
Theorem wait_unregistered_result fuel fid y s
    (Hresult : _results s !! fid = Some y)
    (Hunknown : _future_to_particle s !! fid = None) :
  _wait call mk_module fuel fid s
  = Raise KeyError (set_results (delete fid (_results s)) s).
Proof.
  unfold _wait. erewrite bind_Raise_1; [reflexivity|].
  unfold check_results, bind at 1. simpl. rewrite Hresult.
  unfold bind at 1. simpl. erewrite bind_Raise_1; [reflexivity|].
  apply getitem_None. exact Hunknown.
Qed.

(** X6. A future is consumed once.  The first wait on a future whose
    result is recorded returns the result; a second wait on the same
    future, with nothing on the inbound queue, finds no result and
    blocks. *)
Theorem second_wait_blocks fuel fuel' fid pid futures y s
    (Hresult : _results s !! fid = Some y)
    (Howner : _future_to_particle s !! fid = Some pid)
    (Hpending : _particle_to_futures s !! pid = Some futures)
    (Hin : fid ∈ futures)
    (Hempty : queue_contents (in_queue s) s = []) :
  let s1 := consumed fid pid futures s in
  _wait call mk_module fuel fid s = Ret y s1
  ∧ _wait call mk_module (S fuel') fid s1 = Blocked s1.
Proof.
  simpl. split; [now apply _wait_ready|].
  unfold _wait. rewrite (bind_Ret_1 _ _ _ (false, VNone) (consumed fid pid futures s)).
  - cbn [wait_loop fst]. unfold bind, wait_turn, bind, in_queue_get, queue_get.
    simpl. unfold queue_contents in *. simpl. now rewrite Hempty.
  - apply check_results_pending. simpl. apply lookup_delete_eq.
Qed.

(** X7. [wait] over a list of futures whose results are all recorded
    returns the results in the order of the list, takes nothing from any
    queue, and leaves none of those results in the results map. *)
Theorem wait_in_order pfutures ys s
    (Hdistinct : NoDup (map future_fid pfutures))
    (Hready : Forall2 (λ pfuture y, ready (future_fid pfuture) y s) pfutures ys) :
  ∃ s', (∀ fuel, wait call mk_module fuel pfutures s = Ret ys s')
        ∧ queues s' = queues s
        ∧ Forall (λ pfuture, _results s' !! future_fid pfuture = None) pfutures.
Proof.
  assert (∃ s', (∀ fuel, wait call mk_module fuel pfutures s = Ret ys s')
                ∧ queues s' = queues s
                ∧ (∀ fid, _results s !! fid = None → _results s' !! fid = None)
                ∧ Forall (λ pfuture, _results s' !! future_fid pfuture = None) pfutures)
    as (s' & H1 & H2 & _ & H4); [|eauto].
  revert s Hready. induction pfutures as [|pfuture rest IH] in ys, Hdistinct |- *;
    intros s Hready.
  - apply Forall2_nil_inv_l in Hready as ->. exists s. split_and!; try done.
  - apply Forall2_cons_inv_l in Hready as (y & ys' & Hy & Hrest & ->).
    simpl in Hdistinct. apply NoDup_cons in Hdistinct as [Hnotin Hdistinct].
    destruct Hy as (Hres & pid & Hp & futures & Hf & Hin).
    set (s1 := consumed (future_fid pfuture) pid futures s).
    destruct (IH ys' Hdistinct s1) as (s' & Hwait & Hq & Hmono & Hnone).
    { clear IH Hdistinct. induction Hrest as [|pf y' rest' ys'' Hr _ IHrest];
        constructor.
      - apply ready_consumed; try done. intros Heq. apply Hnotin.
        rewrite Heq. simpl. left.
      - apply IHrest. intros Hel. apply Hnotin. simpl. now right. }
    exists s'. split_and!.
    + intros fuel. simpl. unfold PFuture_wait.
      rewrite (bind_Ret_1 _ _ _ _ _ (_wait_ready call mk_module fuel _ _ _ _ _ Hres Hp Hf Hin)).
      fold s1. now rewrite (bind_Ret_1 _ _ _ _ _ (Hwait fuel)).
    + rewrite Hq. reflexivity.
    + intros fid Hfid. apply Hmono. simpl.
      destruct (decide (future_fid pfuture = fid)) as [<-|Hne];
        [apply lookup_delete_eq|now rewrite lookup_delete_ne].
    + constructor; [|exact Hnone]. apply Hmono. simpl. apply lookup_delete_eq.
Qed.

End Futures.

(** X4, an instance. *)
Lemma register_then_consume_restores_witness :
  (_register_future 0 7 ;;
   modify (λ s, set_results (<[7 := VInt 1]> (_results s)) s) ;;
   check_results 7) (ex_state []) = Ret (true, VInt 1) (ex_state []).
Proof.
  apply (register_then_consume_restores 0 7 ∅ (VInt 1) (ex_state [])).
  - vm_compute; reflexivity.
  - vm_compute; reflexivity.
  - set_solver.
  - vm_compute; reflexivity.
Defined.

(** X5, an instance. *)
Lemma wait_unregistered_result_witness :
  ∃ s', _wait ex_call ex_mk_module 1 4 ex_orphan = Raise KeyError s'
        ∧ _results s' !! 4 = None.
Proof.
  eexists. split.
  - apply (wait_unregistered_result ex_call ex_mk_module 1 4 (VInt 1) ex_orphan).
    + vm_compute; reflexivity.
    + vm_compute; reflexivity.
  - vm_compute; reflexivity.
Defined.

(** X6, an instance. *)
Lemma second_wait_blocks_witness :
  ∃ y s1, _wait ex_call ex_mk_module 1 0 ex_sent = Ret y s1
          ∧ _wait ex_call ex_mk_module 1 0 s1 = Blocked s1.
Proof.
  eexists _, _.
  apply (second_wait_blocks ex_call ex_mk_module 1 0 0 0 {[0]} _ ex_sent).
  - vm_compute; reflexivity.
  - vm_compute; reflexivity.
  - vm_compute; reflexivity.
  - set_solver.
  - vm_compute; reflexivity.
Defined.

(** X7, an instance: the futures of two sends, waited for in one call. *)
Lemma wait_in_order_witness :
  ∃ s', ∀ fuel,
    wait ex_call ex_mk_module fuel [mkPFuture 0 1 0 None; mkPFuture 0 1 1 None] ex_sent_twice
    = Ret [VTensor (mkTensor [1%Z; 2%Z] (Cuda 0) false); VInt 5] s'.
Proof.
  destruct (wait_in_order ex_call ex_mk_module
              [mkPFuture 0 1 0 None; mkPFuture 0 1 1 None]
              [VTensor (mkTensor [1%Z; 2%Z] (Cuda 0) false); VInt 5] ex_sent_twice)
    as (s' & Hwait & _).
  - simpl. repeat constructor; set_solver.
  - repeat constructor; try (vm_compute; reflexivity);
      exists 0; (split; [vm_compute; reflexivity|]);
      exists {[0; 1]}; (split; [vm_compute; reflexivity|set_solver]).
  - exists s'. exact Hwait.
Defined.

Section Send.

Variable call : Callable → Particle → list PyVal → M PyVal.

(** A same-rank [send] whose handler raises. *)
Lemma send_same_rank_raise
    send_particle pid_curr pid op args s r futures module s1 hooks fn state pid_device e s2 :
  _particle_to_rank s !! pid_curr = Some r →
  _particle_to_rank s !! pid = Some r →
  _particle_to_futures s !! pid_curr = Some futures →
  _context_switch_module pid false
    (with_future pid_curr (_future_id s) futures (set_future_id (_future_id s + 1) s))
  = Ret module s1 →
  _hooks s !! pid = Some hooks →
  hooks !! op = Some fn →
  _particle_to_state s !! pid = Some state →
  _particle_to_device s !! pid = Some pid_device →
  call_hook call fn (mkParticle pid_device pid module state)
    (map (detach_to_device pid_device) args) s1 = Raise e s2 →
  send call send_particle pid_curr pid op args s
  = Raise e (set_queues (<[out_queue s2 := queue_contents (out_queue s2) s2 ++ [QExn e]]>
                           (queues s2)) s2).
Proof.
  intros Hr1 Hr2 Hf Hsw Hh Hop Hst Hdev Hcall. unfold send.
  rewrite (bind_Ret_1 _ _ _ _ _ (_create_future_id_run s)).
  erewrite bind_Ret_1; [|apply _register_future_run; simpl; exact Hf].
  erewrite bind_Ret_1; [|apply getitem_Some; simpl; exact Hr1].
  erewrite bind_Ret_1; [|apply getitem_Some; simpl; exact Hr2].
  rewrite decide_True by done.
  rewrite (bind_Ret_1 _ _ _ _ _ Hsw).
  pose proof (context_switch_frame _ _ _ _ _ Hsw) as F.
  pose proof (f_equal _hooks F) as E1. pose proof (f_equal _particle_to_state F) as E2.
  pose proof (f_equal _particle_to_device F) as E3. simpl in E1, E2, E3.
  erewrite bind_Ret_1; [|apply getitem_Some; rewrite E1; exact Hh].
  rewrite Hop. rewrite (bind_Ret_1 _ _ _ fn s1) by done.
  erewrite bind_Ret_1; [|apply getitem_Some; rewrite E2; exact Hst].
  erewrite bind_Ret_1; [|apply getitem_Some; rewrite E3; exact Hdev].
  unfold bind at 1, try_except. now rewrite Hcall.
Qed.

(** X8. A [send] to a particle whose rank the event loop does not know
    raises [KeyError] after the future was created and registered: the
    future id is used up and stays in the pending set of the sender,
    although no future is returned and no result will be recorded. *)
Theorem send_unknown_target_leaves_future
    send_particle pid_curr pid op args s r futures
    (Hrank : _particle_to_rank s !! pid_curr = Some r)
    (Hunknown : _particle_to_rank s !! pid = None)
    (Hpending : _particle_to_futures s !! pid_curr = Some futures) :
  let s' := with_future pid_curr (_future_id s) futures
              (set_future_id (_future_id s + 1) s) in
  send call send_particle pid_curr pid op args s = Raise KeyError s'
  ∧ registered (_future_id s) pid_curr s'
  ∧ _future_id s' = _future_id s + 1
  ∧ _results s' = _results s.
Proof.
  simpl. split_and!; [|apply with_future_registered|done|done].
  unfold send.
  rewrite (bind_Ret_1 _ _ _ _ _ (_create_future_id_run s)).
  erewrite bind_Ret_1; [|apply _register_future_run; simpl; exact Hpending].
  erewrite bind_Ret_1; [|apply getitem_Some; simpl; exact Hrank].
  erewrite bind_Raise_1; [reflexivity|]. apply getitem_None. exact Hunknown.
Qed.

(** X9. When the handler of a same-rank [send] raises, the exception is
    put on [out_queue] and raised again out of [send], and that is all:
    the state is the one the handler left, plus the exception on the
    queue.  No result is recorded and the resource of the sender is not
    switched back in. *)
Theorem send_handler_exception
    send_particle pid_curr pid op args s r futures module s1 hooks fn state pid_device e s2
    (Hrank1 : _particle_to_rank s !! pid_curr = Some r)
    (Hrank2 : _particle_to_rank s !! pid = Some r)
    (Hpending : _particle_to_futures s !! pid_curr = Some futures)
    (Hswitch : _context_switch_module pid false
                 (with_future pid_curr (_future_id s) futures
                    (set_future_id (_future_id s + 1) s)) = Ret module s1)
    (Hhooks : _hooks s !! pid = Some hooks)
    (Hop : hooks !! op = Some fn)
    (Hstate : _particle_to_state s !! pid = Some state)
    (Hdevice : _particle_to_device s !! pid = Some pid_device)
    (Hcall : call_hook call fn (mkParticle pid_device pid module state)
               (map (detach_to_device pid_device) args) s1 = Raise e s2) :
  ∃ s', send call send_particle pid_curr pid op args s = Raise e s'
        ∧ queue_contents (out_queue s2) s' = queue_contents (out_queue s2) s2 ++ [QExn e]
        ∧ out_queue s' = out_queue s2
        ∧ _results s' = _results s2
        ∧ particle_caches s' = particle_caches s2
        ∧ _device_to_pthread s' = _device_to_pthread s2.
Proof.
  eexists. split; [eapply send_same_rank_raise; eassumption|].
  split_and!; try reflexivity.
  unfold queue_contents at 1. simpl. now rewrite lookup_insert_eq.
Qed.

(** X10. A handler stored by [register_receive] is stored as the pair
    [(fn, state)], which is not callable: a same-rank [send] of that
    operation raises [TypeError], which is put on [out_queue], and the
    function is never run. *)
Theorem register_receive_not_callable
    send_particle pid_curr pid msg fn state0 args s r futures hooks state pid_device module s1
    (Htable : _hooks s !! pid = Some hooks)
    (Hrank1 : _particle_to_rank s !! pid_curr = Some r)
    (Hrank2 : _particle_to_rank s !! pid = Some r)
    (Hpending : _particle_to_futures s !! pid_curr = Some futures)
    (Hstate : _particle_to_state s !! pid = Some state)
    (Hdevice : _particle_to_device s !! pid = Some pid_device) :
  let s_r := set_hooks (<[pid := <[msg := HPair fn state0]> hooks]> (_hooks s)) s in
  _context_switch_module pid false
    (with_future pid_curr (_future_id s) futures (set_future_id (_future_id s + 1) s_r))
  = Ret module s1 →
  register_receive pid msg fn state0 s = Ret tt s_r
  ∧ send call send_particle pid_curr pid msg args s_r
    = Raise TypeError
        (set_queues (<[out_queue s1 := queue_contents (out_queue s1) s1 ++ [QExn TypeError]]>
                       (queues s1)) s1).
Proof.
  intros s_r Hswitch. split.
  - unfold register_receive.
    now rewrite (bind_Ret_1 _ _ _ _ _ (getitem_Some _hooks _ _ _ Htable)).
  - eapply send_same_rank_raise with (fn := HPair fn state0); try eassumption.
    + simpl. apply lookup_insert_eq.
    + apply lookup_insert_eq.
    + reflexivity.
Qed.

End Send.

(** X8, an instance: particle 9 was never initialised on this node. *)
Lemma send_unknown_target_leaves_future_witness :
  ∃ s', send ex_call ex_particle 0 9 "ECHO" [] (ex_state []) = Raise KeyError s'
        ∧ registered 0 0 s'.
Proof.
  destruct (send_unknown_target_leaves_future ex_call ex_particle 0 9 "ECHO" []
              (ex_state []) 0 ∅) as (Hsend & Hreg & _).
  - vm_compute; reflexivity.
  - vm_compute; reflexivity.
  - vm_compute; reflexivity.
  - eexists. split; [exact Hsend|exact Hreg].
Defined.

(** X9, an instance: the handler of [FAIL] raises. *)
Lemma send_handler_exception_witness :
  ∃ s', send ex_call ex_particle 0 1 "FAIL" [] (ex_state []) = Raise (UserError 1) s'
        ∧ _results s' = ∅.
Proof.
  destruct (send_handler_exception ex_call ex_particle 0 1 "FAIL" [] (ex_state []) 0 ∅
              (ex_module 20)
              (state_of (_context_switch_module 1 false
                           (with_future 0 0 ∅ (set_future_id 1 (ex_state [])))))
              {["ECHO"%string := HFn 0; "FAIL"%string := HFn 1]} (HFn 1) (VInt 3) 0
              (UserError 1)
              (state_of (_context_switch_module 1 false
                           (with_future 0 0 ∅ (set_future_id 1 (ex_state []))))))
    as (s' & Hsend & _ & _ & Hres & _).
  - vm_compute; reflexivity.
  - vm_compute; reflexivity.
  - vm_compute; reflexivity.
  - vm_compute; reflexivity.
  - vm_compute; reflexivity.
  - vm_compute; reflexivity.
  - vm_compute; reflexivity.
  - vm_compute; reflexivity.
  - vm_compute; reflexivity.
  - exists s'. split; [exact Hsend|]. rewrite Hres. vm_compute; reflexivity.
Defined.

(** X10, an instance. *)
Lemma register_receive_not_callable_witness :
  register_receive 1 "PING" 0 VNone (ex_state []) = Ret tt ex_registered
  ∧ ∃ s', send ex_call ex_particle 0 1 "PING" [] ex_registered = Raise TypeError s'.
Proof.
  destruct (register_receive_not_callable ex_call ex_particle 0 1 "PING" 0 VNone []
              (ex_state []) 0 ∅
              {["ECHO"%string := HFn 0; "FAIL"%string := HFn 1]} (VInt 3) 0 (ex_module 20)
              (state_of (_context_switch_module 1 false
                           (with_future 0 0 ∅ (set_future_id 1 ex_registered)))))
    as (Hreg & Hsend).
  - vm_compute; reflexivity.
  - vm_compute; reflexivity.
  - vm_compute; reflexivity.
  - vm_compute; reflexivity.
  - vm_compute; reflexivity.
  - vm_compute; reflexivity.
  - vm_compute; reflexivity.
  - split; [exact Hreg|]. eexists. exact Hsend.
Defined.

Section Get.

Variable mk_module : Module.

(** X11. A [get] from a particle of another rank puts one
    [ReceiveGetMSG] with the future id, the caller and the target on the
    queue of the target rank and returns the future at once: no result is
    recorded, and no cache and no worker record is touched. *)
Theorem get_cross_rank
    pid_curr pid s rank_id_curr rank_id futures q
    (Hrank1 : _particle_to_rank s !! pid_curr = Some rank_id_curr)
    (Hrank2 : _particle_to_rank s !! pid = Some rank_id)
    (Hdiff : rank_id ≠ rank_id_curr)
    (Hfutures : _particle_to_futures s !! pid_curr = Some futures)
    (Hqueue : _in_queues s !! rank_id = Some q) :
  let fid := _future_id s in
  let s0 := with_future pid_curr fid futures (set_future_id (fid + 1) s) in
  let s' := set_queues (<[q := queue_contents q s ++ [QMsg (ReceiveGetMSG fid pid_curr pid)]]>
                          (queues s)) s0 in
  get mk_module pid_curr pid s = Ret (mkPFuture pid_curr pid fid None) s'
  ∧ _results s' = _results s
  ∧ particle_caches s' = particle_caches s
  ∧ view_caches s' = view_caches s
  ∧ _device_to_pthread s' = _device_to_pthread s.
Proof.
  simpl. split_and!; try reflexivity. unfold get.
  rewrite (bind_Ret_1 _ _ _ _ _ (_create_future_id_run s)).
  erewrite bind_Ret_1; [|apply _register_future_run; eassumption].
  erewrite bind_Ret_1; [|apply getitem_Some; simpl; exact Hrank1].
  erewrite bind_Ret_1; [|apply getitem_Some; simpl; exact Hrank2].
  rewrite decide_False by done.
  erewrite bind_Ret_1; [|apply getitem_Some; simpl; exact Hqueue].
  reflexivity.
Qed.

Lemma copy_snapshot_values device module params params_grad :
  length module = length params →
  length params_grad = length params →
  parameter_values (copy_snapshot device module params params_grad) = map t_data params.
Proof.
  revert params params_grad.
  induction module as [|param rest IH]; intros [|p ps] [|g gs]; simpl; try done.
  intros [= Hlen] [= Hlen']. unfold parameter_values in *. simpl. now rewrite IH.
Qed.

(** X12. Handling a remote-get acknowledgment records, under the future id
    of the message, a view of the target particle in the view cache of the
    device of the target particle, and the parameter values of that view
    are the ones the message carries.  The handling does not look at the
    future maps, and it leaves the particle caches alone.  The snapshot is
    assumed to have one gradient entry per parameter and the architecture
    of the modules of the view cache. *)
Theorem get_ack_materialises_view
    fid pid params params_grad s s' device c
    (Hdevice : _particle_to_device s !! pid = Some device)
    (Hcache : view_caches s !! device = Some c)
    (Hgrads : length params_grad = length params)
    (Hnew : length mk_module = length params)
    (Hold : ∀ m, modules c !! pid = Some m → length m = length params)
    (Hack : _dispatch_receive_get_ack mk_module fid pid params params_grad s = Ret tt s') :
  _results s' !! fid = Some (VView device pid)
  ∧ view_parameters (VView device pid) s' = Some (map t_data params)
  ∧ _future_to_particle s' = _future_to_particle s
  ∧ _particle_to_futures s' = _particle_to_futures s
  ∧ particle_caches s' = particle_caches s
  ∧ queues s' = queues s.
Proof.
  unfold _dispatch_receive_get_ack in Hack.
  apply bind_Ret in Hack as (d & ? & [Hd ->]%getitem_Ret & Hack).
  assert (d = device) as -> by congruence.
  apply bind_Ret in Hack as (c0 & ? & [Hc ->]%getitem_Ret & Hack).
  assert (c0 = c) as -> by congruence.
  apply bind_Ret in Hack as (module & s1 & Hmodule & Hack).
  apply bind_Ret in Hack as ([] & s2 & Hstore & Hack).
  apply bind_Ret in Hack as (d' & ? & [Hd' ->]%getitem_Ret & ->%modify_Ret).
  assert (length module = length params
          ∧ _particle_to_device s1 = _particle_to_device s
          ∧ _future_to_particle s1 = _future_to_particle s
          ∧ _particle_to_futures s1 = _particle_to_futures s
          ∧ particle_caches s1 = particle_caches s
          ∧ queues s1 = queues s
          ∧ _results s1 = _results s) as (Hlen & E1 & E2 & E3 & E4 & E5 & E6).
  { destruct (Cache.contains c pid) eqn:Hcon; simpl in Hmodule.
    - unfold vcache_read in Hmodule.
      apply bind_Ret in Hmodule as (c1 & ? & [Hc1 ->]%getitem_Ret & Hmodule).
      assert (c1 = c) as -> by congruence.
      destruct (Cache.try_read c pid false) as [[m|] c'] eqn:Htry; [|discriminate].
      apply try_read_Some in Htry as (Hm & _ & _). inv_run. subst.
      split_and!; try done. now apply Hold.
    - unfold vcache_create in Hmodule.
      apply bind_Ret in Hmodule as (c1 & ? & [Hc1 ->]%getitem_Ret & Hmodule).
      destruct (Cache.create mk_module c1 pid) as [[m c']|] eqn:Hcr; [|discriminate].
      unfold Cache.create in Hcr. destruct (modules c1 !! pid); [discriminate|].
      injection Hcr as <- <-. inv_run. subst. split_and!; done. }
  unfold vcache_store in Hstore.
  apply bind_Ret in Hstore as (c2 & ? & [Hc2 ->]%getitem_Ret & ->%modify_Ret).
  simpl in *. rewrite E1 in Hd'. assert (d' = device) as -> by congruence.
  split_and!; try done.
  - apply lookup_insert_eq.
  - unfold view_parameters. simpl. rewrite lookup_insert_eq. simpl.
    rewrite lookup_insert_eq. simpl. now rewrite copy_snapshot_values.
Qed.

End Get.

(** X11, an instance: particle 0 asks for a view of particle 2, which lives
    on rank 1. *)
Lemma get_cross_rank_witness :
  ∃ s', get ex_mk_module 0 2 (ex_state []) = Ret (mkPFuture 0 2 0 None) s'
        ∧ queue_contents 5 s' = [QMsg (ReceiveGetMSG 0 0 2)]
        ∧ _results s' = ∅.
Proof.
  destruct (get_cross_rank ex_mk_module 0 2 (ex_state []) 0 1 ∅ 5)
    as (Hget & Hres & _).
  - vm_compute; reflexivity.
  - vm_compute; reflexivity.
  - discriminate.
  - vm_compute; reflexivity.
  - vm_compute; reflexivity.
  - eexists. split; [exact Hget|]. split; [vm_compute; reflexivity|exact Hres].
Defined.

(** X12, an instance. *)
Lemma get_ack_materialises_view_witness :
  let s' := state_of (_dispatch_receive_get_ack ex_mk_module 0 1
                        [mkTensor [5%Z; 6%Z] CPU false] [None] (ex_waiting [])) in
  _results s' !! 0 = Some (VView 0 1)
  ∧ view_parameters (VView 0 1) s' = Some [[5%Z; 6%Z]].
Proof.
  destruct (get_ack_materialises_view ex_mk_module 0 1 [mkTensor [5%Z; 6%Z] CPU false] [None]
              (ex_waiting [])
              (state_of (_dispatch_receive_get_ack ex_mk_module 0 1
                           [mkTensor [5%Z; 6%Z] CPU false] [None] (ex_waiting [])))
              0 (mkCache 2 ∅ [] ∅)) as (H1 & H2 & _).
  - vm_compute; reflexivity.
  - vm_compute; reflexivity.
  - reflexivity.
  - reflexivity.
  - intros m Hm. vm_compute in Hm. discriminate Hm.
  - vm_compute; reflexivity.
  - split; [exact H1|exact H2].
Defined.

Section Dispatch.

Variable call : Callable → Particle → list PyVal → M PyVal.

(** X13. The two requests that a particle of another rank sends are never
    served.  A [ReceiveFuncMSG] whose operation is in the handler table of
    its target, and every [ReceiveGetMSG], make the dispatch raise in
    every state; the handler is not run, and nothing is put on any queue:
    no acknowledgment, and no exception for the coordinator. *)
Theorem cross_rank_requests_never_served s sender pid op args hooks fn
    (Hhooks : _hooks s !! pid = Some hooks)
    (Hop : hooks !! op = Some fn) :
  (∃ e s', _dispatch call (QMsg (ReceiveFuncMSG sender pid op args)) s = Raise e s'
           ∧ outside_caches s' = outside_caches s)
  ∧ (∀ pid_fid pid_caller pid',
       ∃ e, _dispatch call (QMsg (ReceiveGetMSG pid_fid pid_caller pid')) s = Raise e s).
Proof.
  split.
  - unfold _dispatch.
    rewrite (bind_Ret_1 _ _ _ _ _ (getitem_Some _hooks _ _ _ Hhooks)). rewrite Hop.
    destruct (_particle_to_state s !! pid) as [state|] eqn:Hst;
      [|erewrite bind_Raise_1; [eauto|now apply getitem_None]].
    rewrite (bind_Ret_1 _ _ _ _ _ (getitem_Some _particle_to_state _ _ _ Hst)).
    destruct (_particle_to_device s !! pid) as [device|] eqn:Hdev;
      [|erewrite bind_Raise_1; [eauto|now apply getitem_None]].
    rewrite (bind_Ret_1 _ _ _ _ _ (getitem_Some _particle_to_device _ _ _ Hdev)).
    pose proof (cache_only_context_switch pid false s) as F.
    destruct (_context_switch_module pid false s) as [m s'|e s'| |] eqn:Hsw; try done.
    + rewrite (bind_Ret_1 _ _ _ _ _ Hsw). eauto.
    + rewrite (bind_Raise_1 _ _ _ _ _ Hsw). eauto.
  - intros pid_fid pid_caller pid'. unfold _dispatch.
    destruct (_particle_to_device s !! pid') as [device|] eqn:Hdev.
    + rewrite (bind_Ret_1 _ _ _ _ _ (getitem_Some _particle_to_device _ _ _ Hdev)). eauto.
    + erewrite bind_Raise_1; [eauto|now apply getitem_None].
Qed.

(** X14. The dispatch of a [ReceiveParticleInitPDMSG] never completes: it
    records the rank and the device of the new particle and then raises,
    before the resource is created and before the state, the handler
    table and the pending set of the particle are set up.  Nothing is
    acknowledged. *)
Theorem particle_init_raises s device pid mk_optim receive state :
  ∃ e s',
    _dispatch call (QMsg (ReceiveParticleInitPDMSG device pid mk_optim receive state)) s
    = Raise e s'
    ∧ (e = KeyError ∨ e = AttributeError)
    ∧ _particle_to_rank s' = <[pid := rank s]> (_particle_to_rank s)
    ∧ _particle_to_device s' = <[pid := device]> (_particle_to_device s)
    ∧ _hooks s' = _hooks s
    ∧ _particle_to_state s' = _particle_to_state s
    ∧ _particle_to_futures s' = _particle_to_futures s
    ∧ particle_caches s' = particle_caches s
    ∧ queues s' = queues s.
Proof.
  unfold _dispatch. unfold bind at 1, modify. unfold bind at 1, modify.
  destruct (particle_caches s !! device) as [c|] eqn:Hc.
  - erewrite bind_Ret_1; [|apply getitem_Some; simpl; exact Hc].
    eexists _, _. split; [reflexivity|]. split_and!; auto.
  - erewrite bind_Raise_1; [|apply getitem_None; simpl; exact Hc].
    eexists _, _. split; [reflexivity|]. split_and!; auto.
Qed.

(** X15. The dispatch of a [ReceiveParametersPDMSG] acknowledges on
    [out_queue], under the token of the request, the parameter values of
    the resource of the particle, each as a detached tensor on the CPU,
    and lets the loop go on. *)
Theorem parameters_request_acknowledged s pid_fid pid device module s1
    (Hdevice : _particle_to_device s !! pid = Some device)
    (Hswitch : _context_switch_module pid false s = Ret module s1) :
  ∃ params,
    _dispatch call (QMsg (ReceiveParametersPDMSG pid_fid pid)) s
    = Ret true (set_queues (<[out_queue s1 := queue_contents (out_queue s1) s1
                                ++ [QMsg (ReceiveParametersAckPDMSG pid_fid params)]]>
                              (queues s1)) s1)
    ∧ resource_parameters pid s = Some (map t_data params)
    ∧ Forall (λ t, host_resident (VTensor t)) params.
Proof.
  exists (map (λ x, mkTensor (t_data (p_data x)) CPU false) module). split_and!.
  - unfold _dispatch.
    rewrite (bind_Ret_1 _ _ _ _ _ (getitem_Some _particle_to_device _ _ _ Hdevice)).
    now rewrite (bind_Ret_1 _ _ _ _ _ Hswitch).
  - destruct (context_switch_resource _ _ _ _ Hswitch) as [-> _].
    unfold parameter_values. now rewrite map_map.
  - apply Forall_forall. intros t [x [-> _]]%list_elem_of_fmap. done.
Qed.

(** X16. The dispatch of a [ReceiveRegisterPDMSG] for a particle that has
    a handler table stores the function under the operation name, leaves
    every other handler as it was and acknowledges; a later
    [ReceiveFuncPDMSG] for that operation runs exactly that function.  For
    a particle without a handler table the dispatch raises [KeyError] and
    acknowledges nothing. *)
Theorem register_then_invoke s pid msg fn state0 hooks
    (Htable : _hooks s !! pid = Some hooks) :
  let s' := set_queues (<[out_queue s := queue_contents (out_queue s) s
                            ++ [QMsg ReceiveRegisterAckPDMSG]]> (queues s))
              (set_hooks (<[pid := <[msg := HFn fn]> hooks]> (_hooks s)) s) in
  _dispatch call (QMsg (ReceiveRegisterPDMSG pid msg fn state0)) s = Ret true s'
  ∧ (∀ pid' op, (pid', op) ≠ (pid, msg) →
       (_hooks s' !! pid') ≫= (λ h, h !! op) = (_hooks s !! pid') ≫= (λ h, h !! op))
  ∧ (∀ sender args state device module s1,
       _particle_to_state s !! pid = Some state →
       _particle_to_device s !! pid = Some device →
       _context_switch_module pid false s' = Ret module s1 →
       _dispatch call (QMsg (ReceiveFuncPDMSG sender pid msg args)) s'
       = match call fn (mkParticle device pid module state) args s1 with
         | Ret y s2 =>
             Ret true (set_queues (<[out_queue s2 := queue_contents (out_queue s2) s2
                                       ++ [QMsg (ReceiveFuncAckPDMSG sender y)]]>
                                     (queues s2)) s2)
         | Raise e s2 =>
             Raise e (set_queues (<[out_queue s2 := queue_contents (out_queue s2) s2
                                      ++ [QExn e]]> (queues s2)) s2)
         | Blocked s2 => Blocked s2
         | OutOfFuel => OutOfFuel
         end).
Proof.
  intros s'. split_and!.
  - unfold _dispatch.
    now rewrite (bind_Ret_1 _ _ _ _ _ (getitem_Some _hooks _ _ _ Htable)).
  - intros pid' op Hne. simpl.
    destruct (decide (pid' = pid)) as [->|Hpid].
    + rewrite lookup_insert_eq, Htable. simpl.
      rewrite lookup_insert_ne; [done|]. congruence.
    + now rewrite lookup_insert_ne.
  - intros sender args state device module s1 Hst Hdev Hsw.
    pose proof (dispatch_request_run call s' sender pid msg args
                  (<[msg := HFn fn]> hooks) (HFn fn) state device module s1) as Hrun.
    unfold call_hook in Hrun. apply Hrun; try done.
    + simpl. apply lookup_insert_eq.
    + apply lookup_insert_eq.
Qed.

(** X17. The dispatch of a [NELBroadcastParticlesMSG] replaces the two
    queue tables and the particle-to-device map by the ones of the message
    and acknowledges.  The particle-to-rank map is not part of the
    broadcast and stays as it was, and [particles] then lists the pids of
    the broadcast map, each once. *)
Theorem broadcast_replaces_tables s in_queues out_queues particle_to_device :
  ∃ s' pids,
    _dispatch call (QMsg (NELBroadcastParticlesMSG in_queues out_queues particle_to_device)) s
    = Ret true s'
    ∧ _in_queues s' = in_queues
    ∧ _out_queues s' = out_queues
    ∧ _particle_to_device s' = particle_to_device
    ∧ _particle_to_rank s' = _particle_to_rank s
    ∧ queue_contents (out_queue s) s'
      = queue_contents (out_queue s) s ++ [QMsg NELBroadcastParticlesAckMSG]
    ∧ particles s' = Ret pids s'
    ∧ NoDup pids
    ∧ (∀ pid, pid ∈ pids ↔ is_Some (particle_to_device !! pid)).
Proof.
  eexists _, _. split_and!; try reflexivity.
  - unfold queue_contents at 1. simpl. now rewrite lookup_insert_eq.
  - simpl. apply NoDup_fst_map_to_list.
  - intros pid. simpl. rewrite list_elem_of_fmap. split.
    + intros [[p d] [-> Hin]]. apply elem_of_map_to_list in Hin. eauto.
    + intros [d Hd]. exists (pid, d). split; [done|]. now apply elem_of_map_to_list.
Qed.

End Dispatch.

(** X13, an instance. *)
Lemma cross_rank_requests_never_served_witness :
  ∃ e s', _dispatch ex_call (QMsg (ReceiveFuncMSG (0, 0) 1 "ECHO" [])) (ex_state [])
          = Raise e s'.
Proof.
  destruct (cross_rank_requests_never_served ex_call (ex_state []) (0, 0) 1 "ECHO" []
              {["ECHO"%string := HFn 0; "FAIL"%string := HFn 1]} (HFn 0))
    as [(e & s' & Hd & _) _].
  - vm_compute; reflexivity.
  - vm_compute; reflexivity.
  - exists e, s'. exact Hd.
Defined.

(** X15, an instance. *)
Lemma parameters_request_acknowledged_witness :
  ∃ params s',
    _dispatch ex_call (QMsg (ReceiveParametersPDMSG (7, 0) 1)) (ex_state []) = Ret true s'
    ∧ resource_parameters 1 (ex_state []) = Some (map t_data params).
Proof.
  destruct (parameters_request_acknowledged ex_call (ex_state []) (7, 0) 1 0 (ex_module 20)
              (state_of (_context_switch_module 1 false (ex_state []))))
    as (params & Hd & Hv & _).
  - vm_compute; reflexivity.
  - vm_compute; reflexivity.
  - eexists params, _. split; [exact Hd|exact Hv].
Defined.

(** X16, an instance. *)
Lemma register_then_invoke_witness :
  ∃ s', _dispatch ex_call (QMsg (ReceiveRegisterPDMSG 0 "PING" 0 VNone)) (ex_state [])
        = Ret true s'
        ∧ (_hooks s' !! 0) ≫= (λ h, h !! "PING"%string) = Some (HFn 0).
Proof.
  destruct (register_then_invoke ex_call (ex_state []) 0 "PING" 0 VNone ∅) as (Hd & _).
  - vm_compute; reflexivity.
  - eexists. split; [exact Hd|]. vm_compute; reflexivity.
Defined.

Section Waiting.

Variable call : Callable → Particle → list PyVal → M PyVal.
Variable mk_module : Module.

(** X18. A [NodeEvtLoopCleanupMSG] that arrives while [_wait] is waiting
    is taken from the queue and lost: the wait goes on as if the message
    had never been there, whereas the event loop, had it taken the
    message, would have stopped. *)
Theorem wait_swallows_cleanup fuel fid s rest
    (Hpending : _results s !! fid = None)
    (Hqueue : queue_contents (in_queue s) s = QMsg NodeEvtLoopCleanupMSG :: rest) :
  _wait call mk_module (S fuel) fid s = _wait call mk_module fuel fid (take_message s)
  ∧ _start_event_loop call (S fuel) s = Ret tt (take_message s).
Proof.
  split.
  - assert (wait_loop call mk_module (S fuel) fid (false, VNone) [] s
            = wait_loop call mk_module fuel fid (false, VNone) [] (take_message s)) as Hloop.
    { cbn [wait_loop fst].
      rewrite (bind_Ret_1 _ _ _ ((false, VNone), []) (take_message s)); [reflexivity|].
      now rewrite (wait_turn_other call mk_module _ _ _ _ _ _ Hqueue eq_refl eq_refl). }
    unfold _wait.
    rewrite (bind_Ret_1 _ _ _ _ _ (check_results_pending _ _ Hpending)).
    erewrite (bind_Ret_1 _ _ (take_message s));
      [|apply check_results_pending; exact Hpending].
    unfold bind at 1 3. now rewrite Hloop.
  - simpl. rewrite (bind_Ret_1 _ _ _ _ _ (in_queue_get_cons _ _ _ Hqueue)). reflexivity.
Qed.

Lemma check_results_true fid v s s' :
  check_results fid s = Ret (true, v) s' → _results s' !! fid = None.
Proof.
  unfold check_results, bind at 1. simpl.
  destruct (_results s !! fid) as [y|]; [|discriminate].
  intros Hrun. inv_run.
  match goal with H : (if decide _ then _ else _) _ = _ |- _ =>
    destruct (decide (fid ∈ _)); [apply modify_Ret in H|discriminate H] end.
  subst. simpl. apply lookup_delete_eq.
Qed.

(** The run of [_wait] when requests arrive ahead of the acknowledgment
    that resolves the awaited future. *)
Lemma wait_run s fid reqs fid' pid params params_grad rest v s1 fuel :
  _results s !! fid = None →
  Forall (λ msg, is_invocation_request msg = true) reqs →
  queue_contents (in_queue s) s
    = reqs ++ QMsg (ReceiveGetAckMSG fid' pid params params_grad) :: rest →
  (_dispatch_receive_get_ack mk_module fid' pid params params_grad ;;
   check_results fid) (taken (S (length reqs)) s) = Ret (true, v) s1 →
  length reqs < fuel →
  _wait call mk_module fuel fid s = (replay call reqs ;; ret v) s1.
Proof.
  intros Hpending Hreqs Hqueue Hack Hfuel. unfold _wait.
  rewrite (bind_Ret_1 _ _ _ _ _ (check_results_pending _ _ Hpending)).
  replace fuel with (length reqs + S (fuel - S (length reqs))) by lia.
  unfold bind at 1.
  rewrite (wait_loop_buffers call mk_module reqs _ _ _ _ _ _ Hreqs Hqueue).
  cbn [wait_loop fst app].
  assert (queue_contents (in_queue (taken (length reqs) s)) (taken (length reqs) s)
          = QMsg (ReceiveGetAckMSG fid' pid params params_grad) :: rest) as Hq.
  { rewrite in_queue_taken, contents_taken, Hqueue. now rewrite drop_app_length. }
  rewrite (bind_Ret_1 _ _ _ ((true, v), reqs) s1).
  - cbn [fst snd]. destruct (fuel - S (length reqs)); reflexivity.
  - rewrite (wait_turn_get_ack call mk_module _ _ _ _ _ _ _ _ _ Hq).
    change (take_message (taken (length reqs) s)) with (taken (S (length reqs)) s).
    unfold bind at 1. unfold bind in Hack.
    destruct (_dispatch_receive_get_ack mk_module fid' pid params params_grad
                (taken (S (length reqs)) s)) as [u s2| | |]; try discriminate.
    now rewrite (bind_Ret_1 _ _ _ _ _ Hack).
Qed.

(** X19. The awaited result is taken out of the results map before the
    buffered requests are replayed.  When the replay raises, [_wait]
    raises that exception, and the result, no longer recorded, is lost to
    the caller. *)
Theorem wait_loses_result_when_replay_raises
    s fid reqs fid' pid params params_grad rest v s1 e s2 fuel
    (Hpending : _results s !! fid = None)
    (Hreqs : Forall (λ msg, is_invocation_request msg = true) reqs)
    (Hqueue : queue_contents (in_queue s) s
              = reqs ++ QMsg (ReceiveGetAckMSG fid' pid params params_grad) :: rest)
    (Hack : (_dispatch_receive_get_ack mk_module fid' pid params params_grad ;;
             check_results fid) (taken (S (length reqs)) s) = Ret (true, v) s1)
    (Hreplay : replay call reqs s1 = Raise e s2)
    (Hfuel : length reqs < fuel) :
  _wait call mk_module fuel fid s = Raise e s2
  ∧ _results s1 !! fid = None.
Proof.
  split.
  - rewrite (wait_run _ _ _ _ _ _ _ _ _ _ _ Hpending Hreqs Hqueue Hack Hfuel).
    unfold bind. now rewrite Hreplay.
  - apply bind_Ret in Hack as ([] & s0 & _ & Hcheck).
    eapply check_results_true, Hcheck.
Qed.

(** X20. The event loop dispatches in the order of arrival and stops at
    the first [NodeEvtLoopCleanupMSG]: acknowledgments, exception objects
    and [NodeEvtLoopInitMSG] ahead of it are taken and ignored, and what
    arrived after it stays on the queue. *)
Theorem event_loop_stops_at_cleanup msgs : ∀ s rest fuel
    (Hignored : Forall (λ msg, is_ignored msg = true) msgs)
    (Hqueue : queue_contents (in_queue s) s = msgs ++ QMsg NodeEvtLoopCleanupMSG :: rest),
  _start_event_loop call (S (length msgs) + fuel) s = Ret tt (taken (S (length msgs)) s)
  ∧ queue_contents (in_queue s) (taken (S (length msgs)) s) = rest.
Proof.
  induction msgs as [|msg msgs IH]; intros s rest fuel Hignored Hqueue.
  - split.
    + simpl. rewrite (bind_Ret_1 _ _ _ _ _ (in_queue_get_cons _ _ _ Hqueue)). reflexivity.
    + rewrite contents_taken, Hqueue. reflexivity.
  - apply Forall_cons in Hignored as [Hmsg Hignored].
    assert (queue_contents (in_queue (take_message s)) (take_message s)
            = msgs ++ QMsg NodeEvtLoopCleanupMSG :: rest) as Hq'.
    { rewrite in_queue_take, contents_take, Hqueue. reflexivity. }
    destruct (IH (take_message s) rest fuel Hignored Hq') as [Hloop Hrest].
    rewrite taken_take in Hloop, Hrest. rewrite in_queue_take in Hrest.
    split; [|exact Hrest].
    transitivity (_start_event_loop call (S (length msgs) + fuel) (take_message s));
      [|exact Hloop].
    change (S (length (msg :: msgs)) + fuel) with (S (S (length msgs) + fuel)).
    cbn [_start_event_loop].
    rewrite (bind_Ret_1 _ _ _ _ _ (in_queue_get_cons _ _ _ Hqueue)).
    rewrite (bind_Ret_1 _ _ _ true (take_message s)); [reflexivity|].
    destruct msg as [[]|]; try discriminate; reflexivity.
Qed.

End Waiting.

Section Workers.

Variable call : Callable → Particle → list PyVal → M PyVal.
Variable mk_module : Module.
Variable module_forward : Module → PyVal → list PyVal → PyVal + Exn.
Variable scheduler_body : nat → NEL → option Exn.

(** X21. When the module of a particle returns [y] from [forward], the
    future of [forward(pid, x)] resolves to [y]: the worker is recorded
    for the device of the particle, and a wait on the future returns [y]
    and takes nothing from any queue. *)
Theorem forward_wait_returns pid x args s futures module s1 device y
    (Hpending : _particle_to_futures s !! pid = Some futures)
    (Hswitch : _context_switch_module pid false
                 (with_future pid (_future_id s) futures (set_future_id (_future_id s + 1) s))
               = Ret module s1)
    (Hdevice : _particle_to_device s !! pid = Some device)
    (Hforward : module_forward module x args = inl y) :
  ∃ s' s'',
    forward module_forward pid x args s
    = Ret (mkPFuture pid pid (_future_id s) (Some (_future_id s))) s'
    ∧ pthread_lookup device (_device_to_pthread s') = Some (pid, _future_id s)
    ∧ (∀ fuel, PFuture_wait call mk_module fuel
                 (mkPFuture pid pid (_future_id s) (Some (_future_id s))) s' = Ret y s'')
    ∧ queues s'' = queues s.
Proof.
  pose proof (context_switch_frame _ _ _ _ _ Hswitch) as F.
  pose proof (f_equal _particle_to_device F) as E1. simpl in E1.
  pose proof (f_equal _future_to_particle F) as E2. simpl in E2.
  pose proof (f_equal _particle_to_futures F) as E3. simpl in E3.
  pose proof (f_equal queues F) as E4. simpl in E4.
  eexists _, _. split_and!.
  - unfold forward.
    rewrite (bind_Ret_1 _ _ _ _ _ (_create_future_id_run s)).
    erewrite bind_Ret_1; [|apply _register_future_run; simpl; exact Hpending].
    rewrite (bind_Ret_1 _ _ _ _ _ Hswitch).
    erewrite bind_Ret_1; [|apply getitem_Some; rewrite E1; exact Hdevice].
    unfold bind at 1, modify. unfold bind at 1, forward_worker. rewrite Hforward.
    reflexivity.
  - simpl. clear. induction (_device_to_pthread s1) as [|e l IH]; simpl.
    + now rewrite decide_True.
    + destruct (decide (e.1 = device)) as [Heq|Hne]; simpl.
      * now rewrite decide_True.
      * rewrite decide_False by done. exact IH.
  - intros fuel. unfold PFuture_wait. simpl.
    apply _wait_ready with (pid := pid) (futures := futures ∪ {[_future_id s]}); simpl.
    + apply lookup_insert_eq.
    + rewrite E2. apply lookup_insert_eq.
    + rewrite E3. apply lookup_insert_eq.
    + clear. set_solver.
  - simpl. exact E4.
Qed.

(** X22. The worker of [scheduler_step] never records a result.  The
    results map after [scheduler_step] is the one before it, so the
    future that [scheduler_step] returns cannot be resolved by its worker:
    with nothing on the inbound queue, a wait on it blocks. *)
Theorem scheduler_step_never_resolves pid args s fut s' fuel
    (Hfresh : _results s !! _future_id s = None)
    (Hstep : scheduler_step scheduler_body pid args s = Ret fut s')
    (Hempty : queue_contents (in_queue s') s' = []) :
  future_fid fut = _future_id s
  ∧ _results s' = _results s
  ∧ PFuture_wait call mk_module (S fuel) fut s' = Blocked s'.
Proof.
  unfold scheduler_step in Hstep.
  rewrite (bind_Ret_1 _ _ _ _ _ (_create_future_id_run s)) in Hstep.
  apply bind_Ret in Hstep as ([] & s0 & Hreg & Hstep).
  apply _register_future_Ret in Hreg as (futures & Hf & ->).
  apply bind_Ret in Hstep as (module & s1 & Hsw & Hstep).
  apply bind_Ret in Hstep as (device & ? & [Hd ->]%getitem_Ret & Hstep).
  apply bind_Ret in Hstep as ([] & ? & ->%modify_Ret & Hstep).
  apply bind_Ret in Hstep as ([] & s2 & Hworker & [<- <-]%ret_Ret).
  pose proof (f_equal _results (context_switch_frame _ _ _ _ _ Hsw)) as E. simpl in E.
  assert (_results s2 = _results s) as Hres.
  { unfold scheduler_worker in Hworker.
    destruct (scheduler_body pid _) as [e|].
    - injection Hworker as <-. exact E.
    - injection Hworker as <-. exact E. }
  split_and!; [done|exact Hres|].
  unfold PFuture_wait, _wait. simpl.
  rewrite (bind_Ret_1 _ _ _ (false, VNone) s2)
    by (apply check_results_pending; now rewrite Hres).
  cbn [wait_loop fst]. unfold bind, wait_turn, bind, in_queue_get, queue_get.
  now rewrite Hempty.
Qed.

End Workers.

(** X18, an instance. *)
Lemma wait_swallows_cleanup_witness :
  _wait ex_call ex_mk_module 2 0 (ex_waiting [QMsg NodeEvtLoopCleanupMSG; ex_get_ack])
  = _wait ex_call ex_mk_module 1 0 (ex_waiting [ex_get_ack]).
Proof.
  destruct (wait_swallows_cleanup ex_call ex_mk_module 1 0
              (ex_waiting [QMsg NodeEvtLoopCleanupMSG; ex_get_ack]) [ex_get_ack])
    as [Hwait _].
  - vm_compute; reflexivity.
  - vm_compute; reflexivity.
  - rewrite Hwait. vm_compute; reflexivity.
Defined.

(** X19, an instance: the buffered request is a [ReceiveFuncMSG], whose
    dispatch raises. *)
Lemma wait_loses_result_when_replay_raises_witness :
  ∃ s2, _wait ex_call ex_mk_module 2 0 (ex_waiting [ex_remote_request; ex_get_ack])
        = Raise UnboundLocalError s2
        ∧ _results s2 !! 0 = None.
Proof.
  eexists. split.
  - eapply (wait_loses_result_when_replay_raises ex_call ex_mk_module
              (ex_waiting [ex_remote_request; ex_get_ack]) 0 [ex_remote_request] 0 1
              [mkTensor [5%Z; 6%Z] CPU false] [None] [] (VView 0 1)).
    + vm_compute; reflexivity.
    + repeat constructor.
    + vm_compute; reflexivity.
    + vm_compute; reflexivity.
    + vm_compute; reflexivity.
    + simpl; lia.
  - vm_compute; reflexivity.
Defined.

(** X20, an instance. *)
Lemma event_loop_stops_at_cleanup_witness :
  ∃ s', _start_event_loop ex_call 2
          (ex_state [ex_func_ack; QMsg NodeEvtLoopCleanupMSG; ex_request]) = Ret tt s'
        ∧ queue_contents 0 s' = [ex_request].
Proof.
  destruct (event_loop_stops_at_cleanup ex_call [ex_func_ack]
              (ex_state [ex_func_ack; QMsg NodeEvtLoopCleanupMSG; ex_request])
              [ex_request] 0) as [Hloop Hrest].
  - repeat constructor.
  - vm_compute; reflexivity.
  - eexists. split; [exact Hloop|exact Hrest].
Defined.

(** X21, an instance. *)
Lemma forward_wait_returns_witness :
  ∃ s' s'',
    forward ex_forward_id 0 (VInt 4) [] (ex_state []) = Ret (mkPFuture 0 0 0 (Some 0)) s'
    ∧ ∀ fuel, PFuture_wait ex_call ex_mk_module fuel (mkPFuture 0 0 0 (Some 0)) s'
              = Ret (VInt 4) s''.
Proof.
  destruct (forward_wait_returns ex_call ex_mk_module ex_forward_id 0 (VInt 4) []
              (ex_state []) ∅ (ex_module 10)
              (state_of (_context_switch_module 0 false
                           (with_future 0 0 ∅ (set_future_id 1 (ex_state []))))) 0 (VInt 4))
    as (s' & s'' & Hf & _ & Hw & _).
  - vm_compute; reflexivity.
  - vm_compute; reflexivity.
  - vm_compute; reflexivity.
  - reflexivity.
  - exists s', s''. split; [exact Hf|exact Hw].
Defined.

(** X22, an instance. *)
Lemma scheduler_step_never_resolves_witness :
  let s' := state_of (scheduler_step ex_scheduler 0 [] (ex_state [])) in
  _results s' = ∅
  ∧ PFuture_wait ex_call ex_mk_module 1 (mkPFuture 0 0 0 (Some 0)) s' = Blocked s'.
Proof.
  destruct (scheduler_step_never_resolves ex_call ex_mk_module ex_scheduler 0 []
              (ex_state []) (mkPFuture 0 0 0 (Some 0))
              (state_of (scheduler_step ex_scheduler 0 [] (ex_state []))) 0)
    as (_ & Hres & Hwait).
  - vm_compute; reflexivity.
  - vm_compute; reflexivity.
  - vm_compute; reflexivity.
  - split; [exact Hres|exact Hwait].
Defined.
